(** * Shallow embedding of the alert service's storage and ingestion core

    Sources embedded here:
    - [src/storage/sqlite_manager.py]  (module [sqlite_manager] below)
    - [src/connectors/dex_api.py]      (module [dex_api] below)
    - [src/ui/app.py]                  (module [ui_app] below, the part that
      touches the store)

    The Python code builds SQL text and hands it to SQLite.  The SQL text is
    embedded as a small abstract syntax (one constructor per clause the code
    emits) and SQLite is embedded as an interpreter of that syntax over an
    explicit database state.  Every store operation is a computation in a
    state-and-exception monad over that database.

    What the interpreter covers: tables with named columns and one unique
    index, column names resolved without regard to the case of ASCII letters,
    INSERT .. ON CONFLICT (..) DO UPDATE / DO NOTHING, SELECT with equality
    and [>=] filters, ORDER BY .. ASC, LIMIT, NULL handling in comparisons and
    in unique indexes, and SQLite's ordering of storage classes.  What it
    leaves out: column type affinity, NOT NULL / DEFAULT / CHECK constraints
    (the CREATE TABLE statements are not part of the sources), the [rowid]
    aliases, the 64-bit range of INTEGER, non-finite floats and strings that
    have no UTF-8 encoding. *)

From Stdlib Require Import ZArith QArith String List Sorted Lia.
From stdpp Require Import gmap strings list fin_maps.

Local Open Scope string_scope.
Local Open Scope list_scope.
Local Open Scope Z_scope.

(** ** Python and SQLite values *)

(** A value bound to a [?] placeholder or stored in a column.  Python [None]
    is [VNull], [int] (and [bool]) is [VInt], a finite [float] is the rational
    it denotes, [str] is [VText] and [bytes] is [VBlob]. *)
Inductive value : Type :=
| VNull
| VInt (z : Z)
| VReal (q : Q)
| VText (s : string)
| VBlob (b : string).

(** SQLite orders storage classes NULL < numeric < TEXT < BLOB. *)
Definition storage_rank (v : value) : nat :=
  match v with
  | VNull => 0
  | VInt _ | VReal _ => 1
  | VText _ => 2
  | VBlob _ => 3
  end%nat.

Definition numeric (v : value) : Q :=
  match v with
  | VInt z => inject_Z z
  | VReal q => q
  | _ => 0%Q
  end.

Definition octets (v : value) : string :=
  match v with
  | VText s | VBlob s => s
  | _ => ""
  end.

(** The comparison SQLite uses for ORDER BY, indexes and the comparison
    operators (BINARY collation, no affinity conversion). *)
Definition value_compare (a b : value) : comparison :=
  match Nat.compare (storage_rank a) (storage_rank b) with
  | Eq =>
      match a with
      | VNull => Eq
      | VInt _ | VReal _ => Qcompare (numeric a) (numeric b)
      | VText _ | VBlob _ => String.compare (octets a) (octets b)
      end
  | c => c
  end.

Definition value_leb (a b : value) : bool :=
  match value_compare a b with Gt => false | _ => true end.

Definition is_null (v : value) : bool :=
  match v with VNull => true | _ => false end.

(** [a = b] in a WHERE clause or a unique index: never true when a side is
    NULL. *)
Definition sql_eqb (a b : value) : bool :=
  negb (is_null a) && negb (is_null b) &&
  match value_compare a b with Eq => true | _ => false end.

(** [a >= b] in a WHERE clause: never true when a side is NULL. *)
Definition sql_geb (a b : value) : bool :=
  negb (is_null a) && negb (is_null b) && value_leb b a.

(** ** Python dictionaries

    A [Dict[str, Any]] keeps its insertion order, which is the order of the
    columns in the SQL text. *)
Definition dict : Type := list (string * value).

Fixpoint dict_get (d : dict) (k : string) : option value :=
  match d with
  | [] => None
  | (k', v) :: d' => if String.eqb k' k then Some v else dict_get d' k
  end.

Definition dict_keys (d : dict) : list string := map fst d.

(** [k in d] *)
Definition dict_contains (d : dict) (k : string) : bool :=
  match dict_get d k with Some _ => true | None => false end.

(** [d.get(k, default)] *)
Definition dict_get_default (d : dict) (k : string) (dflt : value) : value :=
  match dict_get d k with Some v => v | None => dflt end.

(** [d[k] = v]: an existing key keeps its position, a new key goes last. *)
Fixpoint dict_set (d : dict) (k : string) (v : value) : dict :=
  match d with
  | [] => [(k, v)]
  | (k', v') :: d' =>
      if String.eqb k' k then (k', v) :: d' else (k', v') :: dict_set d' k v
  end.

(** Membership of a name in a list or set literal of names. *)
Definition mem (x : string) (l : list string) : bool :=
  existsb (String.eqb x) l.

(** ** Database state *)

(** A stored row maps column names to values; a column without an entry holds
    NULL. *)
Abbreviation row := (gmap string value).

Definition row_get (r : row) (c : string) : value :=
  match r !! c with Some v => v | None => VNull end.

(** A table: its column names as declared, the columns of its unique index
    (the target an ON CONFLICT clause has to name) and its rows in rowid
    order.  Rows are keyed by the declared names. *)
Record table : Type := mkTable {
  tcols : list string;
  tkey : list string;
  trows : list row
}.

Definition set_rows (t : table) (rs : list row) : table :=
  {| tcols := tcols t; tkey := tkey t; trows := rs |}.

Abbreviation db := (gmap string table).

(** ** Exceptions and the store monad *)

Inductive exn : Type :=
| ValueError (msg : string)
| KeyError (key : string)
| AttributeError (name : string)
| OperationalError (msg : string)     (* sqlite3.OperationalError *)
| ProgrammingError (msg : string)     (* sqlite3.ProgrammingError *)
| TransportError (msg : string)       (* httpx.HTTPError from a connector *)
| CancelledError.                     (* asyncio.CancelledError *)

(** [isinstance(e, Exception)]: [CancelledError] derives from
    [BaseException] only, so [except Exception] does not catch it. *)
Definition is_Exception (e : exn) : bool :=
  match e with CancelledError => false | _ => true end.

(** [isinstance(e, ValueError)], the validation error of the store. *)
Definition is_ValueError (e : exn) : bool :=
  match e with ValueError _ => true | _ => false end.

(** A store computation: runs on a database, ends in an exception or a
    result, and leaves a database behind in both cases. *)
Definition M (A : Type) : Type := db -> (exn + A) * db.

Definition ret {A} (a : A) : M A := fun d => (inr a, d).
Definition raise {A} (e : exn) : M A := fun d => (inl e, d).
Definition bind {A B} (m : M A) (k : A -> M B) : M B :=
  fun d =>
    match m d with
    | (inl e, d') => (inl e, d')
    | (inr a, d') => k a d'
    end.

(** A pure step that may raise, run inside the monad. *)
Definition lift {A} (r : exn + A) : M A := fun d => (r, d).

Declare Scope store_scope.
Delimit Scope store_scope with store.
Notation "x <- m ;; k" := (bind m (fun x => k))
  (at level 100, m at next level, right associativity) : store_scope.
Notation "m ;;; k" := (bind m (fun _ => k))
  (at level 100, right associativity) : store_scope.
Local Open Scope store_scope.

(** ** The SQL the code emits *)

Inductive conflict_action : Type :=
| DoNothing
| DoUpdate (update_columns : list string).  (* SET col=excluded.col, ... *)

(** [INSERT INTO table (columns) VALUES (?, ..) ON CONFLICT(conflict) action] *)
Record upsert_stmt : Type := mkUpsert {
  u_table : string;
  u_columns : list string;
  u_conflict : list string;
  u_action : conflict_action
}.

(** One conjunct of a WHERE clause, with the parameter bound to its [?]. *)
Inductive cond : Type :=
| CEq (col : string) (param : value)   (* col = ? *)
| CGe (col : string) (param : value).  (* col >= ? *)

(** [SELECT columns FROM table WHERE .. ORDER BY .. ASC LIMIT ?];
    [s_columns = None] is [SELECT *]. *)
Record select_stmt : Type := mkSelect {
  s_columns : option (list string);
  s_table : string;
  s_where : list cond;
  s_order : list string;
  s_limit : option value
}.

(** ** SQLite as an interpreter *)

(** Two rows collide on a unique index when every indexed column is non-NULL
    and equal. *)
Definition key_conflict (key : list string) (r excluded : row) : bool :=
  forallb (fun c => sql_eqb (row_get r c) (row_get excluded c)) key.

(** [SET col=excluded.col] for each listed column. *)
Definition apply_update (cols : list string) (r excluded : row) : row :=
  foldr (fun c acc => <[c := row_get excluded c]> acc) r cols.

Definition resolve (a : conflict_action) (r excluded : row) : row :=
  match a with
  | DoNothing => r
  | DoUpdate cols => apply_update cols r excluded
  end.

(** The row that collides with [excluded] is resolved in place; without a
    collision [excluded] becomes the last row. *)
Fixpoint upsert_rows (key : list string) (a : conflict_action)
    (excluded : row) (rs : list row) : list row :=
  match rs with
  | [] => [excluded]
  | r :: rs' =>
      if key_conflict key r excluded
      then resolve a r excluded :: rs'
      else r :: upsert_rows key a excluded rs'
  end.

Definition subset_of (xs ys : list string) : bool :=
  forallb (fun x => mem x ys) xs.

(** SQLite compares identifiers without regard to the case of the ASCII
    letters: [BID] names the column [bid]. *)
Definition lower (a : Ascii.ascii) : Ascii.ascii :=
  let n := Ascii.nat_of_ascii a in
  if (65 <=? n)%nat && (n <=? 90)%nat then Ascii.ascii_of_nat (n + 32) else a.

Fixpoint fold_case (s : string) : string :=
  match s with
  | EmptyString => EmptyString
  | String a s' => String (lower a) (fold_case s')
  end.

Definition same_name (a b : string) : bool :=
  String.eqb (fold_case a) (fold_case b).

(** The declared column a name in a statement refers to.  SQLite refuses a
    table with two columns that differ in case only, so at most one column
    matches; a column spelled as the name is, is that column. *)
Definition resolve_column (cols : list string) (c : string) : option string :=
  if mem c cols then Some c else List.find (same_name c) cols.

Fixpoint resolve_columns (cols names : list string) : option (list string) :=
  match names with
  | [] => Some []
  | c :: names' =>
      match resolve_column cols c, resolve_columns cols names' with
      | Some k, Some ks => Some (k :: ks)
      | _, _ => None
      end
  end.

Definition resolve_action (cols : list string) (a : conflict_action)
  : option conflict_action :=
  match a with
  | DoNothing => Some DoNothing
  | DoUpdate update_columns =>
      match resolve_columns cols update_columns with
      | Some ks => Some (DoUpdate ks)
      | None => None
      end
  end.

(** The conflict target names the columns of the index, in any order. *)
Definition same_names (xs ys : list string) : bool :=
  forallb (fun x => existsb (same_name x) ys) xs
  && forallb (fun y => existsb (same_name y) xs) ys.

(** When two names of the column list refer to one column, the value bound
    to the first is the one inserted. *)
Definition exec_upsert (st : upsert_stmt) (params : list value) : M unit :=
  fun d =>
    match d !! u_table st with
    | None => (inl (OperationalError "no such table"), d)
    | Some t =>
        match resolve_columns (tcols t) (u_columns st),
              resolve_action (tcols t) (u_action st) with
        | Some columns, Some action =>
            if negb (same_names (u_conflict st) (tkey t))
            then (inl (OperationalError
                    "ON CONFLICT clause does not match any PRIMARY KEY or UNIQUE constraint"), d)
            else if negb (Nat.eqb (length params) (length columns))
            then (inl (ProgrammingError "Incorrect number of bindings supplied"), d)
            else
              let excluded : row := list_to_map (zip columns params) in
              (inr tt,
               <[u_table st :=
                   set_rows t (upsert_rows (tkey t) action excluded (trows t))]> d)
        | _, _ => (inl (OperationalError "table has no column of that name"), d)
        end
    end.

Definition cond_col (c : cond) : string :=
  match c with CEq col _ | CGe col _ => col end.

Definition eval_cond (r : row) (c : cond) : bool :=
  match c with
  | CEq col p => sql_eqb (row_get r col) p
  | CGe col p => sql_geb (row_get r col) p
  end.

(** ORDER BY c1, c2, .. ASC: lexicographic on the listed columns. *)
Fixpoint order_compare (cols : list string) (r1 r2 : row) : comparison :=
  match cols with
  | [] => Eq
  | c :: cols' =>
      match value_compare (row_get r1 c) (row_get r2 c) with
      | Eq => order_compare cols' r1 r2
      | o => o
      end
  end.

Definition order_leb (cols : list string) (r1 r2 : row) : bool :=
  match order_compare cols r1 r2 with Gt => false | _ => true end.

Fixpoint insert_sorted (cols : list string) (r : row) (rs : list row) : list row :=
  match rs with
  | [] => [r]
  | r' :: rs' =>
      if order_leb cols r r' then r :: r' :: rs'
      else r' :: insert_sorted cols r rs'
  end.

Definition sort_rows (cols : list string) (rs : list row) : list row :=
  foldr (insert_sorted cols) [] rs.

(** LIMIT n: a negative [n] puts no bound on the number of rows. *)
Definition apply_limit (n : Z) (rs : list row) : list row :=
  if n <? 0 then rs else firstn (Z.to_nat n) rs.

(** [dict(row)] for a result row with the given columns. *)
Definition row_to_dict (cols : list string) (r : row) : dict :=
  map (fun c => (c, row_get r c)) cols.

Definition resolve_cond (cols : list string) (c : cond) : option cond :=
  match c with
  | CEq col p =>
      match resolve_column cols col with Some k => Some (CEq k p) | None => None end
  | CGe col p =>
      match resolve_column cols col with Some k => Some (CGe k p) | None => None end
  end.

Fixpoint resolve_conds (cols : list string) (cs : list cond) : option (list cond) :=
  match cs with
  | [] => Some []
  | c :: cs' =>
      match resolve_cond cols c, resolve_conds cols cs' with
      | Some k, Some ks => Some (k :: ks)
      | _, _ => None
      end
  end.

(** A result column carries the declared name of the column it reads. *)
Definition exec_select (st : select_stmt) : M (list dict) :=
  fun d =>
    match d !! s_table st with
    | None => (inl (OperationalError "no such table"), d)
    | Some t =>
        let names := match s_columns st with Some cs => cs | None => tcols t end in
        match resolve_columns (tcols t) names, resolve_conds (tcols t) (s_where st),
              resolve_columns (tcols t) (s_order st) with
        | Some out, Some conds, Some order =>
            let hits := List.filter (fun r => forallb (eval_cond r) conds) (trows t) in
            let sorted :=
              match order with [] => hits | c :: cols => sort_rows (c :: cols) hits end in
            match s_limit st with
            | None => (inr (map (row_to_dict out) sorted), d)
            | Some (VInt n) => (inr (map (row_to_dict out) (apply_limit n sorted)), d)
            | Some _ => (inl (OperationalError "datatype mismatch"), d)
            end
        | _, _, _ => (inl (OperationalError "no such column"), d)
        end
    end.

(** ** [src/storage/sqlite_manager.py] *)

Module sqlite_manager.

Definition _ALLOWED_BAR_TABLES : list string := ["bars_1m"; "bars_5m"; "bars_15m"].

(** [with _connection_lock: with _connect() as conn: conn.execute(..);
    conn.commit()].  A statement that fails leaves the database as it was. *)
Definition _execute (query : upsert_stmt) (params : list value) : M unit :=
  exec_upsert query params.

Definition _query (query : select_stmt) : M (list dict) :=
  exec_select query.

(** [payload[col]] *)
Definition getitem (payload : dict) (col : string) : exn + value :=
  match dict_get payload col with
  | Some v => inr v
  | None => inl (KeyError col)
  end.

(** [[payload[col] for col in columns]] *)
Fixpoint getitems (payload : dict) (columns : list string) : exn + list value :=
  match columns with
  | [] => inr []
  | col :: columns' =>
      match getitem payload col with
      | inl e => inl e
      | inr v =>
          match getitems payload columns' with
          | inl e => inl e
          | inr vs => inr (v :: vs)
          end
      end
  end.

Definition _build_upsert_sql (table : string) (payload : dict)
    (conflict_columns : list string) (skip_update : option (list string))
  : exn + (upsert_stmt * list value) :=
  let columns := dict_keys payload in
  match columns with
  | [] => inl (ValueError "payload must include at least one column")
  | _ :: _ =>
      let skip := match skip_update with Some s => s | None => [] end in
      let conflict_set := conflict_columns in
      let update_columns :=
        List.filter (fun col => negb (mem col conflict_set) && negb (mem col skip))
                    columns in
      let sql :=
        match update_columns with
        | _ :: _ => mkUpsert table columns conflict_columns (DoUpdate update_columns)
        | [] => mkUpsert table columns conflict_columns DoNothing
        end in
      match getitems payload columns with
      | inl e => inl e
      | inr params => inr (sql, params)
      end
  end.

Definition upsert_bar (table : string) (bar : dict) : M unit :=
  if negb (mem table _ALLOWED_BAR_TABLES)
  then raise (ValueError ("Unsupported bars table: " +:+ table))
  else
    match bar with
    | [] => raise (ValueError "bar payload is empty")
    | _ :: _ =>
        q <- lift (_build_upsert_sql table bar
                     ["source"; "exchange"; "chain"; "symbol"; "close_ts"]
                     (Some ["bid"]));;
        exec_upsert (fst q) (snd q)
    end.

Definition fetch_bars (table : string) (symbol : string)
    (since_ts : option Z) (limit : option Z) : M (list dict) :=
  if negb (mem table _ALLOWED_BAR_TABLES)
  then raise (ValueError ("Unsupported bars table: " +:+ table))
  else
    let conds := [CEq "symbol" (VText symbol)] in
    let conds :=
      match since_ts with
      | Some ts => conds ++ [CGe "close_ts" (VInt ts)]
      | None => conds
      end in
    _query {| s_columns := None; s_table := table; s_where := conds;
              s_order := ["close_ts"];
              s_limit := match limit with Some n => Some (VInt n) | None => None end |}.

Definition insert_event (event : dict) : M unit :=
  if negb (dict_contains event "id")
  then raise (ValueError "event must include 'id'")
  else
    q <- lift (_build_upsert_sql "events" event ["id"] None);;
    exec_upsert (fst q) (snd q).

Definition set_kv (key : string) (value : string) (updated_at : Z) : M unit :=
  let sql :=
    {| u_table := "kv_state"; u_columns := ["key"; "value"; "updated_at"];
       u_conflict := ["key"]; u_action := DoUpdate ["value"; "updated_at"] |} in
  _execute sql [VText key; VText value; VInt updated_at].

Definition get_kv (key : string) : M (option dict) :=
  rows <- _query {| s_columns := Some ["key"; "value"; "updated_at"];
                    s_table := "kv_state"; s_where := [CEq "key" (VText key)];
                    s_order := []; s_limit := None |};;
  ret (match rows with r :: _ => Some r | [] => None end).

Definition upsert_rule (rule : dict) : M unit :=
  if negb (dict_contains rule "id")
  then raise (ValueError "rule must include 'id'")
  else
    q <- lift (_build_upsert_sql "price_alert_rules" rule ["id"] None);;
    exec_upsert (fst q) (snd q).

Definition bool_param (b : bool) : value := VInt (if b then 1 else 0).

Definition list_rules (symbol : option string) (enabled : option bool) : M (list dict) :=
  let conditions :=
    match symbol with Some s => [CEq "symbol" (VText s)] | None => [] end in
  let conditions :=
    match enabled with
    | Some b => conditions ++ [CEq "enabled" (bool_param b)]
    | None => conditions
    end in
  _query {| s_columns := None; s_table := "price_alert_rules";
            s_where := conditions; s_order := ["symbol"; "level"];
            s_limit := None |}.

Definition upsert_token (token : dict) : M unit :=
  if negb (dict_contains token "id")
  then raise (ValueError "token must include 'id'")
  else
    q <- lift (_build_upsert_sql "token_registry" token ["id"] None);;
    exec_upsert (fst q) (snd q).

Definition list_tokens (enabled : option bool) : M (list dict) :=
  let conds :=
    match enabled with Some b => [CEq "enabled" (bool_param b)] | None => [] end in
  _query {| s_columns := None; s_table := "token_registry"; s_where := conds;
            s_order := ["symbol"]; s_limit := None |}.

Definition __all__ : list string :=
  ["get_db_path"; "upsert_bar"; "fetch_bars"; "insert_event"; "set_kv";
   "get_kv"; "upsert_rule"; "list_rules"; "upsert_token"; "list_tokens"].

(** Every name bound at the top level of the module, in source order. *)
Definition module_names : list string :=
  ["annotations"; "os"; "sqlite3"; "Path"; "Lock"; "Any"; "Dict"; "Iterable";
   "List"; "Optional"; "_DB_PATH_ENV"; "_DEFAULT_DB_FILENAME";
   "_ALLOWED_BAR_TABLES"; "_connection_lock"; "get_db_path"; "_connect";
   "_execute"; "_executemany"; "_query"; "_build_upsert_sql"; "upsert_bar";
   "fetch_bars"; "insert_event"; "set_kv"; "get_kv"; "upsert_rule";
   "list_rules"; "upsert_token"; "list_tokens"; "__all__"].

(** [sqlite_manager.<name>]: attribute access on the module object. *)
Definition module_getattr (name : string) : exn + string :=
  if mem name module_names then inr name else inl (AttributeError name).

End sqlite_manager.

(** ** [src/connectors/dex_api.py] *)

Module dex_api.

(** What reading an [Iterable[Dict]] to its end gives: the bars it yields
    and, when the iteration does not simply stop, the exception it raises
    after the last of them. *)
Record iterable : Type := mkIterable {
  yielded : list dict;
  raised : option exn
}.

(** A [list] of bars: read to its end without failure. *)
Definition finished (bars : list dict) : iterable :=
  {| yielded := bars; raised := None |}.

(** The [DexAdapter] protocol.  A call goes out to the network; its outcome
    (the iterable it returns, or the exception the awaited call ends in) is a
    function of the arguments of the call. *)
Record DexAdapter : Type := mkAdapter {
  adapter_fetch_1m_bar :
    value (* chain *) -> value (* token_address *) ->
    value (* pool_address *) -> option Z (* since_ts *) -> exn + iterable
}.

(** [PancakeAdapter.fetch_1m_bar], over the outcome of the HTTP request:
    [price_of token_address] is [float(data.get("price", 0.0))], or the
    exception raised on the way to it.  The result is a list. *)
Definition PancakeAdapter (price_of : value -> exn + Q) : DexAdapter :=
  {| adapter_fetch_1m_bar := fun chain token_address pool_address since_ts =>
       match price_of token_address with
       | inl e => inl e
       | inr price =>
           if Qeq_bool price 0 then inr (finished [])
           else inr (finished
                     [[("open_ts", VInt 0); ("close_ts", VInt 0);
                       ("open", VReal price); ("high", VReal price);
                       ("low", VReal price); ("close", VReal price);
                       ("volume_base", VReal 0); ("volume_quote", VReal 0);
                       ("notional_usd", VReal 0); ("trades", VInt 0)]])
       end |}.

(** The module-level registry [_ADAPTERS], passed explicitly. *)
Abbreviation registry := (gmap string DexAdapter).

Definition register_adapter (name : string) (adapter : DexAdapter)
    (_ADAPTERS : registry) : registry :=
  <[name := adapter]> _ADAPTERS.

(** [_ADAPTERS.get(key)] for a key read from a row: only a [str] can be
    bound in the registry. *)
Definition adapters_get (_ADAPTERS : registry) (key : value) : option DexAdapter :=
  match key with
  | VText name => _ADAPTERS !! name
  | _ => None
  end.

(** [list(await adapter.fetch_1m_bar(..))] reads the iterable to its end. *)
Definition fetch_1m_bar (_ADAPTERS : registry) (chain token_address pool_address : value)
    (since_ts : option Z) : exn + list dict :=
  match _ADAPTERS !! "pancake" with
  | None => inl (ValueError "No adapter registered for Pancake")
  | Some adapter =>
      match adapter_fetch_1m_bar adapter chain token_address pool_address since_ts with
      | inl e => inl e
      | inr bars =>
          match raised bars with
          | Some e => inl e
          | None => inr (yielded bars)
          end
      end
  end.

(** The payload written for one bar of one token. *)
Definition bar_payload (token bar : dict) : exn + dict :=
  match sqlite_manager.getitem token "exchange" with
  | inl e => inl e
  | inr exchange =>
      match sqlite_manager.getitem token "symbol" with
      | inl e => inl e
      | inr symbol =>
          let p := dict_set bar "source" (VText "dex") in
          let p := dict_set p "exchange" exchange in
          let p := dict_set p "chain" (dict_get_default token "chain" (VText "")) in
          let p := dict_set p "symbol" symbol in
          let p := dict_set p "base" (dict_get_default token "base" (VText "")) in
          let p := dict_set p "quote" (dict_get_default token "quote" (VText "")) in
          inr p
      end
  end.

(** [for bar in bars: payload = {..}; upsert_bar("bars_1m", payload);
    inserted += 1], over the bars the iterable yields and the way its
    iteration ends.  The loop stands outside the [try]: an exception of the
    iterator leaves the function. *)
Fixpoint upsert_bars (token : dict) (bars : list dict) (stop : option exn)
    (inserted : Z) : M Z :=
  match bars with
  | [] =>
      match stop with
      | Some exc => raise exc
      | None => ret inserted
      end
  | bar :: bars' =>
      payload <- lift (bar_payload token bar);;
      sqlite_manager.upsert_bar "bars_1m" payload;;;
      upsert_bars token bars' stop (inserted + 1)
  end.

(** The body of [for token in tokens]. *)
Fixpoint sync_tokens (_ADAPTERS : registry) (since_ts : option Z)
    (tokens : list dict) (inserted : Z) : M Z :=
  match tokens with
  | [] => ret inserted
  | token :: tokens' =>
      exchange <- lift (sqlite_manager.getitem token "exchange");;
      match adapters_get _ADAPTERS exchange with
      | None => sync_tokens _ADAPTERS since_ts tokens' inserted
      | Some adapter =>
          match adapter_fetch_1m_bar adapter
                  (dict_get_default token "chain" (VText ""))
                  (dict_get_default token "token_address" (VText ""))
                  (dict_get_default token "pool_address" VNull)
                  since_ts with
          | inl exc =>
              if is_Exception exc
              then
                (* LOGGER.exception(.., token["symbol"], exc); continue *)
                lift (sqlite_manager.getitem token "symbol");;;
                sync_tokens _ADAPTERS since_ts tokens' inserted
              else raise exc
          | inr bars =>
              inserted' <- upsert_bars token (yielded bars) (raised bars) inserted;;
              sync_tokens _ADAPTERS since_ts tokens' inserted'
          end
      end
  end.

Definition sync_registered_tokens (_ADAPTERS : registry) (since_ts : option Z) : M Z :=
  tokens <- sqlite_manager.list_tokens (Some true);;
  sync_tokens _ADAPTERS since_ts tokens 0.

End dex_api.

(** ** [src/ui/app.py]: the store operations the dashboard asks for *)

Module ui_app.

(** The attributes of [sqlite_manager] that [_dashboard], [_price_alerts] and
    [_token_registry] read, in source order. *)
Definition store_reads : list string :=
  ["fetch_latest_bar"; "fetch_undelivered_events"; "list_rules"; "list_tokens"].

(** The two attribute reads of [_dashboard]: [fetch_latest_bar] once per
    configured symbol, then [fetch_undelivered_events]. *)
Definition _dashboard_reads (symbols : list string) : list string :=
  map (fun _ => "fetch_latest_bar") symbols ++ ["fetch_undelivered_events"].

(** The outcome of the first attribute read that fails, if one does. *)
Fixpoint first_failure (names : list string) : option exn :=
  match names with
  | [] => None
  | name :: names' =>
      match sqlite_manager.module_getattr name with
      | inl e => Some e
      | inr _ => first_failure names'
      end
  end.

End ui_app.

(** ** A concrete database *)

Definition bar_columns : list string :=
  ["source"; "exchange"; "chain"; "symbol"; "base"; "quote"; "open_ts";
   "close_ts"; "open"; "high"; "low"; "close"; "volume_base"; "volume_quote";
   "notional_usd"; "trades"; "bid"].

Definition bar_identity : list string :=
  ["source"; "exchange"; "chain"; "symbol"; "close_ts"].

(** Modelled from the spec: the CREATE TABLE statements are not among the
    sources.  The tables are the ones the queries name; the columns are the
    attributes the data model lists for each entity, and each unique index is
    the identity the data model gives (the ON CONFLICT target of the code). *)
Definition empty_store : db :=
  let bars := {| tcols := bar_columns; tkey := bar_identity; trows := [] |} in
  <["bars_1m" := bars]> (
  <["bars_5m" := bars]> (
  <["bars_15m" := bars]> (
  <["events" := {| tcols := ["id"; "symbol"; "rule"; "severity"; "ts"; "delivered"];
                   tkey := ["id"]; trows := [] |}]> (
  <["kv_state" := {| tcols := ["key"; "value"; "updated_at"];
                     tkey := ["key"]; trows := [] |}]> (
  <["price_alert_rules" := {| tcols := ["id"; "symbol"; "level"; "enabled"];
                              tkey := ["id"]; trows := [] |}]> (
  <["token_registry" :=
      {| tcols := ["id"; "symbol"; "exchange"; "chain"; "token_address";
                   "pool_address"; "base"; "quote"; "enabled"];
         tkey := ["id"]; trows := [] |}]> ∅)))))).

(** The rows of a table of a database, none when the table is missing. *)
Definition rows_of (d : db) (tbl : string) : list row :=
  match d !! tbl with Some t => trows t | None => [] end.

(** Runs a computation for its final database. *)
Definition exec {A} (m : M A) (d : db) : db := snd (m d).
Definition outcome {A} (m : M A) (d : db) : exn + A := fst (m d).

(** ** Vocabulary of the properties *)

(** The value a payload supplies for a column; [None] and a missing key both
    bind NULL. *)
Definition payload_value (p : dict) (c : string) : value :=
  dict_get_default p c VNull.

(** The row an INSERT of the payload proposes ([excluded] in the SET
    clause). *)
Definition row_of_dict (p : dict) : row := list_to_map p.

Definition same_columns (a b : list string) : bool :=
  subset_of a b && subset_of b a.

(** Identities as tuples of values, compared as a unique index compares
    them. *)
Fixpoint same_identity (k1 k2 : list value) : bool :=
  match k1, k2 with
  | [], [] => true
  | a :: k1', b :: k2' => sql_eqb a b && same_identity k1' k2'
  | _, _ => false
  end.

Definition row_identity (key : list string) (r : row) : list value :=
  map (row_get r) key.

Definition payload_identity (key : list string) (p : dict) : list value :=
  map (payload_value p) key.

(** Every identity field is supplied and is not NULL. *)
Definition complete_identity (key : list string) (p : dict) : bool :=
  forallb (fun c => negb (is_null (payload_value p c))) key.

(** No two rows of the list collide on the index. *)
Fixpoint unique_rows (key : list string) (rs : list row) : bool :=
  match rs with
  | [] => true
  | r :: rs' =>
      forallb (fun r' => negb (key_conflict key r r')) rs' && unique_rows key rs'
  end.




(** A sequence of [upsert_bar] calls, each with its table and its payload. *)
Fixpoint upsert_each (calls : list (string * dict)) : M unit :=
  match calls with
  | [] => ret tt
  | (tbl, bar) :: calls' =>
      sqlite_manager.upsert_bar tbl bar;;; upsert_each calls'
  end.



(** The rows [list_tokens(enabled=True)] returns from a registry table. *)
Definition listed_tokens (t : table) : list dict :=
  map (row_to_dict (tcols t))
      (sort_rows ["symbol"]
         (List.filter (fun r => sql_eqb (row_get r "enabled") (VInt 1)) (trows t))).

(** The outcome of the connector call an ingestion cycle makes for a market:
    [None] when no connector is registered for its exchange. *)
Definition market_fetch (_ADAPTERS : dex_api.registry) (since_ts : option Z)
    (token : dict) : option (exn + dex_api.iterable) :=
  match dex_api.adapters_get _ADAPTERS (payload_value token "exchange") with
  | None => None
  | Some adapter =>
      Some (dex_api.adapter_fetch_1m_bar adapter
              (dict_get_default token "chain" (VText ""))
              (dict_get_default token "token_address" (VText ""))
              (dict_get_default token "pool_address" VNull)
              since_ts)
  end.

(** The bars a market contributes to a cycle: what the result of its
    connector yields, nothing when the connector is missing or its call
    failed. *)
Definition market_bars (_ADAPTERS : dex_api.registry) (since_ts : option Z)
    (token : dict) : list dict :=
  match market_fetch _ADAPTERS since_ts token with
  | Some (inr bars) => dex_api.yielded bars
  | _ => []
  end.

(** The identity tags the orchestrator attaches to a bar of a market. *)
Definition tagged (token bar : dict) : dict :=
  let p := dict_set bar "source" (VText "dex") in
  let p := dict_set p "exchange" (payload_value token "exchange") in
  let p := dict_set p "chain" (dict_get_default token "chain" (VText "")) in
  let p := dict_set p "symbol" (payload_value token "symbol") in
  let p := dict_set p "base" (dict_get_default token "base" (VText "")) in
  dict_set p "quote" (dict_get_default token "quote" (VText "")).

(** The writes of a cycle in the words of the specification: for every
    market in listing order, every bar its connector returned, tagged. *)
Definition cycle_writes (_ADAPTERS : dex_api.registry) (since_ts : option Z)
    (tokens : list dict) : list (string * dict) :=
  concat (map (fun token =>
                 map (fun bar => ("bars_1m", tagged token bar))
                     (market_bars _ADAPTERS since_ts token))
              tokens).

(** The column a returned record holds under a name. *)
Definition field (record : dict) (c : string) : value :=
  dict_get_default record c VNull.

(** The columns [_build_upsert_sql] puts in the SET clause. *)
Definition update_columns_of (p : dict) (conflict skip : list string) : list string :=
  List.filter (fun col => negb (mem col conflict) && negb (mem col skip))
              (dict_keys p).

(** The conflict clause for a list of update columns. *)
Definition action_of (update_columns : list string) : conflict_action :=
  match update_columns with
  | [] => DoNothing
  | _ :: _ => DoUpdate update_columns
  end.

(** The tail shared by [upsert_bar], [insert_event], [upsert_rule] and
    [upsert_token]: build the statement, execute it. *)
Definition build_and_execute (tbl : string) (p : dict)
    (conflict : list string) (skip : option (list string)) : M unit :=
  q <- lift (sqlite_manager._build_upsert_sql tbl p conflict skip);;
  exec_upsert (fst q) (snd q).

(** The table a write of payload [p] leaves behind. *)
Definition table_after (t : table) (p : dict) (conflict skip : list string) : table :=
  set_rows t (upsert_rows (tkey t) (action_of (update_columns_of p conflict skip))
                          (row_of_dict p) (trows t)).

(** The row an INSERT of the payload proposes, once its keys are resolved
    to the columns they name. *)
Definition excluded_row (columns : list string) (p : dict) : row :=
  list_to_map (zip columns (map (payload_value p) (dict_keys p))).





(** The columns and the unique index of a table of the database. *)
Definition schema_of (d : db) (tbl : string) : option (list string * list string) :=
  match d !! tbl with
  | Some t => Some (tcols t, tkey t)
  | None => None
  end.

(** The unique index of every table holds. *)
Definition store_unique (d : db) : Prop :=
  forall tbl t, d !! tbl = Some t -> unique_rows (tkey t) (trows t) = true.

Definition skip_list (skip : option (list string)) : list string :=
  match skip with Some s => s | None => [] end.

(** The three writes keyed by [id], each with its table. *)
Definition writes_by_id : list (string * (dict -> M unit)) :=
  [("events", sqlite_manager.insert_event);
   ("price_alert_rules", sqlite_manager.upsert_rule);
   ("token_registry", sqlite_manager.upsert_token)].

(** The rows a SELECT finds in a table, filtered and ordered, before LIMIT. *)
Definition selected (st : select_stmt) (t : table) : list row :=
  let hits := List.filter (fun r => forallb (eval_cond r) (s_where st)) (trows t) in
  match s_order st with [] => hits | cols => sort_rows cols hits end.

Definition limited (st : select_stmt) (rs : list row) : list row :=
  match s_limit st with
  | Some (VInt n) => apply_limit n rs
  | _ => rs
  end.

Definition select_columns (st : select_stmt) (t : table) : list string :=
  match s_columns st with Some cs => cs | None => tcols t end.

Definition integer_limit (st : select_stmt) : bool :=
  match s_limit st with
  | None | Some (VInt _) => true
  | Some _ => false
  end.

(** The row [set_kv] proposes. *)
Definition kv_excluded (key value : string) (updated_at : Z) : row :=
  list_to_map (zip ["key"; "value"; "updated_at"]
                   [VText key; VText value; VInt updated_at]).

(** Ascending in one column, in the order of SQLite. *)
Definition ascending (c : string) (a b : row) : Prop :=
  value_leb (row_get a c) (row_get b c) = true.

(** The statement [fetch_bars] builds. *)
Definition bars_query (tbl symbol : string) (since_ts limit : option Z) : select_stmt :=
  {| s_columns := None; s_table := tbl;
     s_where := match since_ts with
                | Some ts => [CEq "symbol" (VText symbol)] ++ [CGe "close_ts" (VInt ts)]
                | None => [CEq "symbol" (VText symbol)]
                end;
     s_order := ["close_ts"];
     s_limit := match limit with Some n => Some (VInt n) | None => None end |}.







(** ** Sample data *)

Definition sample_event : dict :=
  [("id", VText "e1"); ("symbol", VText "BTCUSDT"); ("severity", VText "high")].


Definition sample_events_table : table :=
  {| tcols := ["id"; "symbol"; "rule"; "severity"; "ts"; "delivered"];
     tkey := ["id"];
     trows := [row_of_dict sample_event] |}.

Definition store_with_event : db := <["events" := sample_events_table]> empty_store.

Definition sample_bar : dict :=
  [("source", VText "dex"); ("exchange", VText "pancake"); ("chain", VText "bsc");
   ("symbol", VText "CAKE"); ("close_ts", VInt 60); ("open", VInt 2);
   ("close", VInt 3); ("trades", VInt 7); ("bid", VInt 5)].

(** The same candle reported again: other prices, another [bid], no
    [trades]. *)
Definition sample_bar_again : dict :=
  [("source", VText "dex"); ("exchange", VText "pancake"); ("chain", VText "bsc");
   ("symbol", VText "CAKE"); ("close_ts", VInt 60); ("open", VInt 2);
   ("close", VInt 4); ("bid", VInt 9)].


Definition sample_bars_table : table :=
  {| tcols := bar_columns; tkey := bar_identity; trows := [row_of_dict sample_bar] |}.

Definition store_with_bar : db := <["bars_1m" := sample_bars_table]> empty_store.


Definition complete (k : list value) : bool :=
  forallb (fun v => negb (is_null v)) k.



Definition sample_kv_table : table :=
  {| tcols := ["key"; "value"; "updated_at"]; tkey := ["key"]; trows := [] |}.


(** Another candle of the same market. *)
Definition sample_bar_next : dict :=
  [("source", VText "dex"); ("exchange", VText "pancake"); ("chain", VText "bsc");
   ("symbol", VText "CAKE"); ("close_ts", VInt 120); ("close", VInt 6)].


(** Three enabled markets as in the example of the specification, a fourth
    whose exchange has no connector and a fifth that is disabled. *)
Definition sample_markets : table :=
  {| tcols := ["id"; "symbol"; "exchange"; "chain"; "token_address";
               "pool_address"; "base"; "quote"; "enabled"];
     tkey := ["id"];
     trows :=
       [row_of_dict [("id", VText "t3"); ("symbol", VText "CCC"); ("exchange", VText "uni");
                     ("chain", VText "eth"); ("token_address", VText "0xc");
                     ("enabled", VInt 1)];
        row_of_dict [("id", VText "t1"); ("symbol", VText "AAA"); ("exchange", VText "pancake");
                     ("chain", VText "bsc"); ("token_address", VText "0xa");
                     ("enabled", VInt 1)];
        row_of_dict [("id", VText "t5"); ("symbol", VText "EEE"); ("exchange", VText "pancake");
                     ("chain", VText "bsc"); ("token_address", VText "0xe");
                     ("enabled", VInt 0)];
        row_of_dict [("id", VText "t2"); ("symbol", VText "BBB"); ("exchange", VText "flaky");
                     ("chain", VText "bsc"); ("token_address", VText "0xb");
                     ("enabled", VInt 1)];
        row_of_dict [("id", VText "t4"); ("symbol", VText "DDD"); ("exchange", VText "nowhere");
                     ("chain", VText "bsc"); ("token_address", VText "0xd");
                     ("enabled", VInt 1)]] |}.

Definition sample_market_store : db := <["token_registry" := sample_markets]> empty_store.

Definition raw_bar (close_ts price : Z) : dict :=
  [("open_ts", VInt (close_ts - 60)); ("close_ts", VInt close_ts);
   ("open", VInt price); ("high", VInt price); ("low", VInt price);
   ("close", VInt price); ("trades", VInt 1)].

(** A connector that answers with two bars, one that fails with a transport
    error and one that answers with three bars. *)
Definition sample_adapters : dex_api.registry :=
  <["pancake" := dex_api.mkAdapter
                   (fun _ _ _ _ => inr (dex_api.finished [raw_bar 60 3; raw_bar 120 4]))]> (
  <["flaky" := dex_api.mkAdapter (fun _ _ _ _ => inl (TransportError "timed out"))]> (
  <["uni" := dex_api.mkAdapter
               (fun _ _ _ _ =>
                  inr (dex_api.finished [raw_bar 60 7; raw_bar 120 8; raw_bar 180 9]))]> ∅)).


(** ** Vocabulary of the further properties *)

(** The columns of the SET clause of a conflict action, none for DO NOTHING. *)
Definition update_set (a : conflict_action) : list string :=
  match a with
  | DoNothing => []
  | DoUpdate cols => cols
  end.


(** A computation that leaves a table of the database as it finds it. *)
Definition leaves_table {A} (tbl : string) (m : M A) : Prop :=
  forall d, snd (m d) !! tbl = d !! tbl.

Definition sample_kv_store : db :=
  <["kv_state" :=
      {| tcols := ["key"; "value"; "updated_at"]; tkey := ["key"];
         trows := [row_of_dict [("key", VText "cursor:ETHUSDT"); ("value", VText "1699999000");
                                ("updated_at", VInt 1699999100)]] |}]> empty_store.




(** Ascending in the listed columns, as ORDER BY orders rows. *)
Definition ordered (cols : list string) (a b : row) : Prop :=
  order_leb cols a b = true.

(** Ascending by [symbol], then by [level]: the order of [list_rules]. *)
Definition by_symbol_then_level (a b : dict) : Prop :=
  match value_compare (field a "symbol") (field b "symbol") with
  | Lt => True
  | Eq => value_leb (field a "level") (field b "level") = true
  | Gt => False
  end.

(** The conditions [list_rules] puts in its WHERE clause. *)
Definition rule_conditions (symbol : option string) (enabled : option bool) : list cond :=
  match symbol with Some s => [CEq "symbol" (VText s)] | None => [] end
  ++ match enabled with
     | Some b => [CEq "enabled" (sqlite_manager.bool_param b)]
     | None => []
     end.

Definition sample_rules_store : db :=
  <["price_alert_rules" :=
      {| tcols := ["id"; "symbol"; "level"; "enabled"]; tkey := ["id"];
         trows := [row_of_dict [("id", VText "r3"); ("symbol", VText "ETHUSDT");
                                ("level", VInt 3000); ("enabled", VInt 1)];
                   row_of_dict [("id", VText "r2"); ("symbol", VText "BTCUSDT");
                                ("level", VInt 70000); ("enabled", VInt 1)];
                   row_of_dict [("id", VText "r1"); ("symbol", VText "BTCUSDT");
                                ("level", VInt 50000); ("enabled", VInt 0)]] |}]>
    empty_store.

(** A registry with one market whose [chain] was never set. *)
Definition sample_markets_no_chain : table :=
  {| tcols := ["id"; "symbol"; "exchange"; "chain"; "token_address";
               "pool_address"; "base"; "quote"; "enabled"];
     tkey := ["id"];
     trows :=
       [row_of_dict [("id", VText "t1"); ("symbol", VText "AAA"); ("exchange", VText "pancake");
                     ("token_address", VText "0xa"); ("enabled", VInt 1)]] |}.

(** A store whose bars table has no column for the trade count. *)
Definition narrow_bars_table : table :=
  {| tcols := ["source"; "exchange"; "chain"; "symbol"; "base"; "quote"; "open_ts";
               "close_ts"; "open"; "high"; "low"; "close"];
     tkey := bar_identity; trows := [] |}.

Definition narrow_store : db :=
  <["bars_1m" := narrow_bars_table]> sample_market_store.

(** A bar without a trade count. *)
Definition narrow_bar (close_ts price : Z) : dict :=
  [("open_ts", VInt (close_ts - 60)); ("close_ts", VInt close_ts);
   ("open", VInt price); ("high", VInt price); ("low", VInt price);
   ("close", VInt price)].

(** Connectors for the narrow table: the second bar of the last one has a
    trade count. *)
Definition sample_adapters_narrow : dex_api.registry :=
  <["pancake" := dex_api.mkAdapter
                   (fun _ _ _ _ => inr (dex_api.finished [narrow_bar 60 3]))]> (
  <["flaky" := dex_api.mkAdapter (fun _ _ _ _ => inl (TransportError "timed out"))]> (
  <["uni" := dex_api.mkAdapter
               (fun _ _ _ _ =>
                  inr (dex_api.finished
                         [narrow_bar 60 7; raw_bar 120 8; narrow_bar 180 9]))]> ∅)).


(** The bar [PancakeAdapter] builds from a price. *)
Definition pancake_bar (price : Q) : dict :=
  [("open_ts", VInt 0); ("close_ts", VInt 0);
   ("open", VReal price); ("high", VReal price);
   ("low", VReal price); ("close", VReal price);
   ("volume_base", VReal 0); ("volume_quote", VReal 0);
   ("notional_usd", VReal 0); ("trades", VInt 0)].

Definition sample_token : dict :=
  [("id", VText "t1"); ("symbol", VText "AAA"); ("exchange", VText "pancake");
   ("chain", VText "bsc"); ("token_address", VText "0xa"); ("enabled", VInt 1)].

(** * Properties *)

(** ** The order on values *)

Section ValueOrder.

Lemma ascii_compare_refl (a : Ascii.ascii) : Ascii.compare a a = Eq.
Proof. unfold Ascii.compare. apply N.compare_refl. Qed.

Lemma string_compare_refl (s : string) : String.compare s s = Eq.
Proof.
  induction s as [|a s IH]; simpl; [reflexivity|].
  rewrite ascii_compare_refl. exact IH.
Qed.

Lemma string_compare_eq (s1 s2 : string) : String.compare s1 s2 = Eq -> s1 = s2.
Proof. apply String.compare_eq_iff. Qed.

Lemma ascii_compare_lt_trans (a b c : Ascii.ascii) :
  Ascii.compare a b = Lt -> Ascii.compare b c = Lt -> Ascii.compare a c = Lt.
Proof.
  unfold Ascii.compare. rewrite !N.compare_lt_iff. apply N.lt_trans.
Qed.

Lemma string_compare_lt_trans (s1 : string) :
  forall s2 s3, String.compare s1 s2 = Lt -> String.compare s2 s3 = Lt ->
                String.compare s1 s3 = Lt.
Proof.
  induction s1 as [|a s1 IH]; intros [|b s2] [|c s3]; simpl; try congruence.
  destruct (Ascii.compare a b) eqn:Hab; try congruence;
    destruct (Ascii.compare b c) eqn:Hbc; try congruence; intros H12 H23.
  - apply Ascii.compare_eq_iff in Hab, Hbc. subst.
    rewrite ascii_compare_refl. eauto.
  - apply Ascii.compare_eq_iff in Hab. subst. now rewrite Hbc.
  - apply Ascii.compare_eq_iff in Hbc. subst. now rewrite Hab.
  - now rewrite (ascii_compare_lt_trans a b c).
Qed.

Lemma value_compare_antisym (a b : value) :
  value_compare b a = CompOpp (value_compare a b).
Proof.
  destruct a, b; unfold value_compare; simpl; try reflexivity;
    solve [ symmetry; apply Qcompare_antisym | apply String.compare_antisym ].
Qed.

Lemma value_compare_refl (a : value) : value_compare a a = Eq.
Proof.
  destruct a; unfold value_compare; simpl; try reflexivity;
    solve [ apply Qeq_alt; reflexivity | apply string_compare_refl ].
Qed.

Lemma value_compare_eq_trans (a b c : value) :
  value_compare a b = Eq -> value_compare b c = Eq -> value_compare a c = Eq.
Proof.
  destruct a, b, c; unfold value_compare; simpl; try congruence;
    try (rewrite <- !Qeq_alt; intros H1 H2; rewrite H1; exact H2);
    intros H1 H2; apply string_compare_eq in H1, H2; subst;
    apply string_compare_refl.
Qed.

Lemma value_leb_total (a b : value) : value_leb a b = false -> value_leb b a = true.
Proof.
  unfold value_leb. rewrite (value_compare_antisym a b).
  destruct (value_compare a b); simpl; congruence.
Qed.

Lemma string_leb_trans (s1 s2 s3 : string) :
  String.compare s1 s2 <> Gt -> String.compare s2 s3 <> Gt ->
  String.compare s1 s3 <> Gt.
Proof.
  destruct (String.compare s1 s2) eqn:H12; [| |congruence];
    destruct (String.compare s2 s3) eqn:H23; try congruence; intros _ _.
  - apply string_compare_eq in H12, H23. subst. now rewrite string_compare_refl.
  - apply string_compare_eq in H12. subst. now rewrite H23.
  - apply string_compare_eq in H23. subst. now rewrite H12.
  - now rewrite (string_compare_lt_trans s1 s2 s3).
Qed.

Lemma leb_of_compare (c : comparison) :
  (match c with Gt => false | _ => true end) = true <-> c <> Gt.
Proof. destruct c; split; congruence. Qed.

Lemma value_leb_trans (a b c : value) :
  value_leb a b = true -> value_leb b c = true -> value_leb a c = true.
Proof.
  unfold value_leb. rewrite !leb_of_compare.
  destruct a, b, c; unfold value_compare; simpl; try congruence;
    try (rewrite <- !Qle_alt; apply Qle_trans);
    apply string_leb_trans.
Qed.

Lemma value_leb_int (x y : Z) : value_leb (VInt x) (VInt y) = true <-> (x <= y)%Z.
Proof.
  unfold value_leb. rewrite leb_of_compare. unfold value_compare. simpl.
  rewrite <- Qle_alt, <- Zle_Qle. reflexivity.
Qed.

Lemma sql_eqb_sym (a b : value) : sql_eqb a b = sql_eqb b a.
Proof.
  unfold sql_eqb. rewrite (value_compare_antisym a b).
  destruct (is_null a), (is_null b), (value_compare a b); reflexivity.
Qed.

Lemma sql_eqb_trans (a b c : value) :
  sql_eqb a b = true -> sql_eqb b c = true -> sql_eqb a c = true.
Proof.
  unfold sql_eqb. intros H1 H2.
  apply andb_prop in H1 as [H1 E1]. apply andb_prop in H1 as [Na Nb].
  apply andb_prop in H2 as [H2 E2]. apply andb_prop in H2 as [_ Nc].
  rewrite Na, Nc. simpl.
  destruct (value_compare a b) eqn:Hab; try discriminate.
  destruct (value_compare b c) eqn:Hbc; try discriminate.
  now rewrite (value_compare_eq_trans a b c).
Qed.

Lemma sql_eqb_text (v : value) (s : string) :
  sql_eqb v (VText s) = true -> v = VText s.
Proof.
  unfold sql_eqb, value_compare. destruct v; simpl; try discriminate.
  destruct (String.compare s0 s) eqn:H; try discriminate.
  apply string_compare_eq in H. now subst.
Qed.

Lemma sql_eqb_refl (v : value) : is_null v = false -> sql_eqb v v = true.
Proof. unfold sql_eqb. intros ->. now rewrite value_compare_refl. Qed.

Lemma sql_eqb_not_null (a b : value) :
  sql_eqb a b = true -> is_null a = false /\ is_null b = false.
Proof.
  unfold sql_eqb. destruct (is_null a), (is_null b); simpl; try discriminate; auto.
Qed.

End ValueOrder.

(** ** Dictionaries, name lists and rows *)

Section Basics.

Lemma mem_In (x : string) (l : list string) : mem x l = true <-> In x l.
Proof.
  unfold mem. rewrite existsb_exists. split.
  - intros (y & Hy & E). apply String.eqb_eq in E. now subst.
  - intros H. exists x. split; [exact H | apply String.eqb_refl].
Qed.

Lemma mem_false (x : string) (l : list string) : mem x l = false <-> ~ In x l.
Proof.
  rewrite <- mem_In. destruct (mem x l); split; congruence.
Qed.


Lemma subset_of_In (xs ys : list string) :
  subset_of xs ys = true <-> forall x, In x xs -> In x ys.
Proof.
  unfold subset_of. rewrite forallb_forall. split; intros H x Hx.
  - now apply mem_In, H.
  - now apply mem_In, H.
Qed.

Lemma forallb_ext_in {A} (f g : A -> bool) (l : list A) :
  (forall x, In x l -> f x = g x) -> forallb f l = forallb g l.
Proof.
  induction l as [|a l IH]; simpl; [reflexivity|].
  intros H. rewrite (H a) by now left. rewrite IH; [reflexivity|].
  intros x Hx. apply H. now right.
Qed.


Lemma forallb_map {A B} (f : A -> B) (g : B -> bool) (l : list A) :
  forallb g (map f l) = forallb (fun x => g (f x)) l.
Proof.
  induction l as [|a l IH]; simpl; [reflexivity | now rewrite IH].
Qed.


Lemma subset_of_app (xs ys zs : list string) :
  subset_of (xs ++ ys) zs = subset_of xs zs && subset_of ys zs.
Proof. unfold subset_of. apply forallb_app. Qed.

Lemma row_of_dict_lookup (p : dict) (c : string) :
  (row_of_dict p : row) !! c = dict_get p c.
Proof.
  unfold row_of_dict. induction p as [|[k v] p IH]; simpl.
  - apply lookup_empty.
  - rewrite lookup_insert. destruct (String.eqb_spec k c) as [->|Hne].
    + now rewrite decide_True.
    + now rewrite decide_False.
Qed.

Lemma row_get_row_of_dict (p : dict) (c : string) :
  row_get (row_of_dict p) c = payload_value p c.
Proof.
  unfold row_get, payload_value, dict_get_default. now rewrite row_of_dict_lookup.
Qed.

Lemma dict_get_keys (p : dict) (c : string) :
  dict_get p c = if mem c (dict_keys p) then Some (payload_value p c) else None.
Proof.
  unfold payload_value, dict_get_default.
  induction p as [|[k v] p IH]; simpl; [reflexivity|].
  rewrite (String.eqb_sym c k). destruct (String.eqb k c); simpl; [reflexivity|].
  rewrite IH. unfold mem. destruct (existsb (String.eqb c) (dict_keys p)); reflexivity.
Qed.

Lemma dict_contains_keys (p : dict) (c : string) :
  dict_contains p c = mem c (dict_keys p).
Proof.
  unfold dict_contains. rewrite dict_get_keys. now destruct (mem c (dict_keys p)).
Qed.

Lemma zip_map_lookup (f : string -> value) (ks : list string) (c : string) :
  (list_to_map (zip ks (map f ks)) : row) !! c
  = if mem c ks then Some (f c) else None.
Proof.
  induction ks as [|k ks IH]; simpl.
  - apply lookup_empty.
  - rewrite lookup_insert, (String.eqb_sym c k).
    destruct (String.eqb_spec k c) as [->|Hne]; simpl.
    + now rewrite decide_True.
    + rewrite decide_False by exact Hne. exact IH.
Qed.

Lemma excluded_row_of_dict (p : dict) :
  (list_to_map (zip (dict_keys p) (map (payload_value p) (dict_keys p))) : row)
  = row_of_dict p.
Proof.
  apply map_eq. intros c.
  now rewrite zip_map_lookup, row_of_dict_lookup, dict_get_keys.
Qed.

Lemma getitems_present (p : dict) (cols : list string) :
  subset_of cols (dict_keys p) = true ->
  sqlite_manager.getitems p cols = inr (map (payload_value p) cols).
Proof.
  induction cols as [|c cols IH]; simpl; [reflexivity|].
  intros H. apply andb_prop in H as [Hc Hcols].
  unfold sqlite_manager.getitem. rewrite dict_get_keys, Hc.
  now rewrite (IH Hcols).
Qed.

Lemma subset_of_refl (xs : list string) : subset_of xs xs = true.
Proof. apply subset_of_In. auto. Qed.

Lemma row_to_dict_get (cols : list string) (r : row) (c : string) :
  dict_get (row_to_dict cols r) c = if mem c cols then Some (row_get r c) else None.
Proof.
  unfold row_to_dict. induction cols as [|k cols IH]; simpl; [reflexivity|].
  rewrite (String.eqb_sym c k).
  destruct (String.eqb_spec k c) as [->|Hne]; simpl; [reflexivity | exact IH].
Qed.

Lemma apply_update_get (cols : list string) (r e : row) (c : string) :
  row_get (apply_update cols r e) c
  = if mem c cols then row_get e c else row_get r c.
Proof.
  unfold apply_update. induction cols as [|k cols IH]; simpl; [reflexivity|].
  unfold row_get at 1. rewrite lookup_insert, (String.eqb_sym c k).
  destruct (String.eqb_spec k c) as [->|Hne]; simpl.
  - now rewrite decide_True.
  - rewrite decide_False by exact Hne. exact IH.
Qed.


Lemma same_name_refl (a : string) : same_name a a = true.
Proof. apply String.eqb_refl. Qed.

Lemma same_name_eq (a b : string) : same_name a b = true <-> fold_case a = fold_case b.
Proof. apply String.eqb_eq. Qed.

Lemma resolve_column_exact (cols : list string) (c : string) :
  mem c cols = true -> resolve_column cols c = Some c.
Proof. intros H. unfold resolve_column. now rewrite H. Qed.

(** A name resolves to a declared column it matches. *)
Lemma resolve_column_spec (cols : list string) (c k : string) :
  resolve_column cols c = Some k -> In k cols /\ same_name c k = true.
Proof.
  unfold resolve_column. destruct (mem c cols) eqn:E.
  - intros [= <-]. split; [now apply mem_In | apply same_name_refl].
  - intros H. apply find_some in H. exact H.
Qed.

Lemma resolve_columns_exact (cols names : list string) :
  subset_of names cols = true -> resolve_columns cols names = Some names.
Proof.
  induction names as [|c names IH]; simpl; [reflexivity|].
  intros H. apply andb_prop in H as [Hc Hn].
  now rewrite (resolve_column_exact cols c Hc), (IH Hn).
Qed.


Lemma resolve_conds_exact (cols : list string) (cs : list cond) :
  subset_of (map cond_col cs) cols = true -> resolve_conds cols cs = Some cs.
Proof.
  induction cs as [|c cs IH]; simpl; [reflexivity|].
  intros H. apply andb_prop in H as [Hc Hn].
  rewrite (IH Hn). destruct c; simpl in Hc |- *;
    now rewrite (resolve_column_exact _ _ Hc).
Qed.

Lemma same_columns_names (xs ys : list string) :
  same_columns xs ys = true -> same_names xs ys = true.
Proof.
  assert (H : forall a b, subset_of a b = true ->
                          forallb (fun x => existsb (same_name x) b) a = true).
  { intros a b Hab. apply forallb_forall. intros x Hx.
    rewrite subset_of_In in Hab. apply existsb_exists.
    exists x. split; [now apply Hab | apply same_name_refl]. }
  unfold same_columns, same_names. intros E. apply andb_prop in E as [E1 E2].
  now rewrite (H _ _ E1), (H _ _ E2).
Qed.

End Basics.

(** ** Unique indexes and the conflict clause *)

Section Conflicts.

Lemma same_identity_sym (k1 : list value) :
  forall k2, same_identity k1 k2 = same_identity k2 k1.
Proof.
  induction k1 as [|a k1 IH]; intros [|b k2]; simpl; try reflexivity.
  now rewrite sql_eqb_sym, IH.
Qed.


Lemma key_conflict_identity (key : list string) (r e : row) :
  key_conflict key r e = same_identity (row_identity key r) (row_identity key e).
Proof.
  unfold key_conflict, row_identity.
  induction key as [|c key IH]; simpl; [reflexivity | now rewrite IH].
Qed.

Lemma key_conflict_sym (key : list string) (r e : row) :
  key_conflict key r e = key_conflict key e r.
Proof. rewrite !key_conflict_identity. apply same_identity_sym. Qed.


Lemma key_conflict_subset (k1 k2 : list string) (r e : row) :
  subset_of k1 k2 = true -> key_conflict k2 r e = true -> key_conflict k1 r e = true.
Proof.
  unfold key_conflict. rewrite subset_of_In, !forallb_forall. auto.
Qed.

Lemma key_conflict_same_columns (k1 k2 : list string) (r e : row) :
  same_columns k1 k2 = true -> key_conflict k1 r e = key_conflict k2 r e.
Proof.
  unfold same_columns. intros H. apply andb_prop in H as [H12 H21].
  destruct (key_conflict k2 r e) eqn:E2.
  - now apply (key_conflict_subset k1 k2).
  - destruct (key_conflict k1 r e) eqn:E1; [|reflexivity].
    now rewrite (key_conflict_subset k2 k1 r e H21 E1) in E2.
Qed.











Lemma sql_eqb_congr (a b x : value) :
  sql_eqb a b = true -> sql_eqb b x = sql_eqb a x.
Proof.
  intros Hab. destruct (sql_eqb a x) eqn:E.
  - rewrite sql_eqb_sym in Hab. exact (sql_eqb_trans b a x Hab E).
  - destruct (sql_eqb b x) eqn:E'; [|reflexivity].
    now rewrite (sql_eqb_trans a b x Hab E') in E.
Qed.

(** Whatever the SET clause names, the row it resolves collides with the
    rows it collided with before: an index column it overwrites receives a
    value equal to the one it held. *)
Lemma resolve_conflict_key (key : list string) (a : conflict_action) (r e x : row) :
  key_conflict key r e = true ->
  key_conflict key (resolve a r e) x = key_conflict key r x.
Proof.
  intros Hc. destruct a as [|cols]; [reflexivity|]. cbn [resolve].
  unfold key_conflict in *. rewrite forallb_forall in Hc.
  apply forallb_ext_in. intros c Hin. rewrite apply_update_get.
  destruct (mem c cols); [|reflexivity].
  apply sql_eqb_congr. now apply Hc.
Qed.

Lemma upsert_rows_forallb_conflict (key : list string) (a : conflict_action) (e : row)
    (Q : row -> bool) (rs : list row) :
  (forall r, key_conflict key r e = true -> Q (resolve a r e) = Q r) -> Q e = true ->
  forallb Q rs = true -> forallb Q (upsert_rows key a e rs) = true.
Proof.
  intros HQ He. induction rs as [|r rs IH]; simpl; [now rewrite He|].
  intros H. apply andb_prop in H as [Hr Hrs].
  destruct (key_conflict key r e) eqn:E; simpl.
  - now rewrite (HQ r E), Hr, Hrs.
  - now rewrite Hr, IH.
Qed.

(** The unique index survives an upsert, whatever its conflict clause. *)
Lemma upsert_rows_keeps_unique (key : list string) (a : conflict_action) (e : row)
    (rs : list row) :
  unique_rows key rs = true -> unique_rows key (upsert_rows key a e rs) = true.
Proof.
  induction rs as [|r rs IH]; simpl; [reflexivity|].
  intros H. apply andb_prop in H as [Hr Hrs].
  destruct (key_conflict key r e) eqn:E; simpl.
  - rewrite Hrs, andb_true_r.
    rewrite <- Hr. apply forallb_ext_in.
    intros x _. f_equal. now apply resolve_conflict_key.
  - rewrite (IH Hrs), andb_true_r.
    apply upsert_rows_forallb_conflict; [| now rewrite E | exact Hr].
    intros x Hx. f_equal.
    rewrite (key_conflict_sym key r (resolve a x e)), (key_conflict_sym key r x).
    now apply resolve_conflict_key.
Qed.


End Conflicts.

(** ** Executing the statements *)

Section Statements.

Lemma exec_upsert_ok (st : upsert_stmt) (ps : list value) (d : db) (t : table) :
  d !! u_table st = Some t ->
  subset_of (u_columns st) (tcols t) = true ->
  subset_of (update_set (u_action st)) (tcols t) = true ->
  same_columns (u_conflict st) (tkey t) = true ->
  length ps = length (u_columns st) ->
  exec_upsert st ps d
  = (inr tt,
     <[u_table st :=
         set_rows t (upsert_rows (tkey t) (u_action st)
                                 (list_to_map (zip (u_columns st) ps)) (trows t))]> d).
Proof.
  intros Ht Hcols Hset Hkey Hlen. unfold exec_upsert.
  rewrite Ht, (resolve_columns_exact _ _ Hcols).
  assert (Ha : resolve_action (tcols t) (u_action st) = Some (u_action st)).
  { destruct (u_action st) as [|us]; [reflexivity|].
    simpl in Hset |- *. now rewrite (resolve_columns_exact _ _ Hset). }
  rewrite Ha, (same_columns_names _ _ Hkey). simpl.
  rewrite Hlen, Nat.eqb_refl. reflexivity.
Qed.

(** A statement either fails and leaves the database as it was, or finds
    its table, resolves its columns and replaces the rows of that table. *)
Lemma exec_upsert_cases (st : upsert_stmt) (ps : list value) (d : db) :
  (exists e, exec_upsert st ps d = (inl e, d) /\ is_ValueError e = false)
  \/ (exists t columns action,
        d !! u_table st = Some t
        /\ resolve_columns (tcols t) (u_columns st) = Some columns
        /\ resolve_action (tcols t) (u_action st) = Some action
        /\ same_names (u_conflict st) (tkey t) = true
        /\ exec_upsert st ps d
           = (inr tt,
              <[u_table st :=
                  set_rows t (upsert_rows (tkey t) action
                                (list_to_map (zip columns ps)) (trows t))]> d)).
Proof.
  unfold exec_upsert.
  destruct (d !! u_table st) as [t|] eqn:Ht;
    [|left; eexists; split; reflexivity].
  destruct (resolve_columns (tcols t) (u_columns st)) as [columns|] eqn:Hcols;
    [|left; eexists; split; reflexivity].
  destruct (resolve_action (tcols t) (u_action st)) as [action|] eqn:Hact;
    [|left; eexists; split; reflexivity].
  destruct (same_names (u_conflict st) (tkey t)) eqn:Hkey; cbn [negb];
    [|left; eexists; split; reflexivity].
  destruct (negb (length ps =? length columns)%nat);
    [left; eexists; split; reflexivity|].
  right. exists t, columns, action. auto.
Qed.

(** A statement that fails is not a validation error and writes nothing. *)
Lemma exec_upsert_failure (st : upsert_stmt) (ps : list value) (d d' : db) (e : exn) :
  exec_upsert st ps d = (inl e, d') -> d' = d /\ is_ValueError e = false.
Proof.
  destruct (exec_upsert_cases st ps d)
    as [(e' & -> & He)|(t & columns & action & _ & _ & _ & _ & ->)];
    [|discriminate].
  now intros [= <- <-].
Qed.



Lemma build_upsert_sql_ok (tbl : string) (p : dict) (conflict : list string)
    (skip : option (list string)) :
  p <> [] ->
  sqlite_manager._build_upsert_sql tbl p conflict skip
  = inr ({| u_table := tbl; u_columns := dict_keys p; u_conflict := conflict;
            u_action := action_of (update_columns_of p conflict (skip_list skip)) |},
         map (payload_value p) (dict_keys p)).
Proof.
  intros Hp. unfold sqlite_manager._build_upsert_sql.
  destruct (dict_keys p) as [|k ks] eqn:Hk.
  { destruct p; [congruence | discriminate]. }
  rewrite <- Hk, (getitems_present p (dict_keys p) (subset_of_refl _)).
  unfold update_columns_of, skip_list, action_of.
  destruct skip; destruct (List.filter _ (dict_keys p)); reflexivity.
Qed.

Lemma build_and_execute_ok (tbl : string) (p : dict) (conflict : list string)
    (skip : option (list string)) (d : db) (t : table) :
  p <> [] ->
  d !! tbl = Some t ->
  subset_of (dict_keys p) (tcols t) = true ->
  same_columns conflict (tkey t) = true ->
  build_and_execute tbl p conflict skip d
  = (inr tt, <[tbl := table_after t p conflict (skip_list skip)]> d).
Proof.
  intros Hp Ht Hcols Hkey. unfold build_and_execute, bind, lift.
  rewrite (build_upsert_sql_ok tbl p conflict skip Hp). simpl.
  rewrite (exec_upsert_ok _ _ d t); simpl; try assumption.
  - now rewrite excluded_row_of_dict.
  - apply subset_of_In. rewrite subset_of_In in Hcols. intros c Hc. apply Hcols.
    unfold action_of in Hc.
    destruct (update_columns_of p conflict (skip_list skip)) as [|u us] eqn:E;
      [contradiction|].
    cbn [update_set] in Hc. rewrite <- E in Hc. unfold update_columns_of in Hc.
    now apply filter_In in Hc as [Hc _].
  - apply length_map.
Qed.

(** Whatever the database, a write of a non-empty payload either succeeds or
    fails with an error of the engine, and then writes nothing. *)
Lemma build_and_execute_outcome (tbl : string) (p : dict) (conflict : list string)
    (skip : option (list string)) (d : db) :
  p <> [] ->
  (exists d', build_and_execute tbl p conflict skip d = (inr tt, d'))
  \/ (exists e, build_and_execute tbl p conflict skip d = (inl e, d)
                /\ is_ValueError e = false).
Proof.
  intros Hp. unfold build_and_execute, bind, lift.
  rewrite (build_upsert_sql_ok tbl p conflict skip Hp). simpl.
  match goal with |- context [exec_upsert ?st ?ps d] =>
    destruct (exec_upsert st ps d) as [[e|[]] d'] eqn:E end.
  - apply exec_upsert_failure in E as [-> He]. right. eauto.
  - left. eauto.
Qed.



Lemma upsert_bar_valid (tbl : string) (bar : dict) :
  mem tbl sqlite_manager._ALLOWED_BAR_TABLES = true -> bar <> [] ->
  sqlite_manager.upsert_bar tbl bar
  = build_and_execute tbl bar bar_identity (Some ["bid"]).
Proof.
  intros Htbl Hbar. unfold sqlite_manager.upsert_bar. rewrite Htbl. simpl.
  destruct bar; [congruence | reflexivity].
Qed.

Lemma contains_nonempty (p : dict) (c : string) : dict_contains p c = true -> p <> [].
Proof. now destruct p. Qed.

Lemma complete_identity_nonempty (p : dict) :
  complete_identity bar_identity p = true -> p <> [].
Proof. now destruct p. Qed.

End Statements.

(** ** Queries never write and never fail validation *)

Section Queries.

Lemma exec_select_state (st : select_stmt) (d : db) : snd (exec_select st d) = d.
Proof.
  unfold exec_select. destruct (d !! s_table st) as [t|]; [|reflexivity].
  destruct (resolve_columns _ _); [|reflexivity].
  destruct (resolve_conds _ _); [|reflexivity].
  destruct (resolve_columns _ _); [|reflexivity].
  destruct (s_limit st) as [[]|]; reflexivity.
Qed.

Lemma exec_select_failure (st : select_stmt) (d : db) (e : exn) :
  fst (exec_select st d) = inl e -> is_ValueError e = false.
Proof.
  unfold exec_select. destruct (d !! s_table st) as [t|]; [|now inversion 1].
  destruct (resolve_columns _ _); [|now inversion 1].
  destruct (resolve_conds _ _); [|now inversion 1].
  destruct (resolve_columns _ _); [|now inversion 1].
  destruct (s_limit st) as [[]|]; now inversion 1.
Qed.

Lemma exec_select_ok (st : select_stmt) (d : db) (t : table) :
  d !! s_table st = Some t ->
  subset_of (select_columns st t ++ map cond_col (s_where st) ++ s_order st)
            (tcols t) = true ->
  integer_limit st = true ->
  exec_select st d
  = (inr (map (row_to_dict (select_columns st t)) (limited st (selected st t))), d).
Proof.
  intros Ht Hcols Hlim. unfold exec_select. rewrite Ht.
  fold (select_columns st t).
  rewrite !subset_of_app in Hcols.
  apply andb_prop in Hcols as [Hout Hcols]. apply andb_prop in Hcols as [Hwhere Horder].
  rewrite (resolve_columns_exact _ _ Hout), (resolve_conds_exact _ _ Hwhere),
    (resolve_columns_exact _ _ Horder).
  fold (selected st t). unfold limited, integer_limit in *.
  destruct (s_limit st) as [[]|]; try discriminate; reflexivity.
Qed.

End Queries.

(** ** Validation at the Bar Store boundary *)

Section Validation.

Import sqlite_manager.

Lemma allowed_tables (tbl : string) :
  mem tbl _ALLOWED_BAR_TABLES = true
  <-> tbl = "bars_1m" \/ tbl = "bars_5m" \/ tbl = "bars_15m".
Proof.
  rewrite mem_In. simpl. intuition congruence.
Qed.

Lemma upsert_bar_rejects_table (tbl : string) (bar : dict) (d : db) :
  mem tbl _ALLOWED_BAR_TABLES = false ->
  upsert_bar tbl bar d = (inl (ValueError ("Unsupported bars table: " +:+ tbl)), d).
Proof. intros H. unfold upsert_bar. now rewrite H. Qed.

Lemma upsert_bar_rejects_empty (tbl : string) (d : db) :
  mem tbl _ALLOWED_BAR_TABLES = true ->
  upsert_bar tbl [] d = (inl (ValueError "bar payload is empty"), d).
Proof. intros H. unfold upsert_bar. now rewrite H. Qed.

Lemma upsert_bar_outcome (tbl : string) (bar : dict) (d : db) :
  mem tbl _ALLOWED_BAR_TABLES = true -> bar <> [] ->
  (exists d', upsert_bar tbl bar d = (inr tt, d'))
  \/ (exists e, upsert_bar tbl bar d = (inl e, d) /\ is_ValueError e = false).
Proof.
  intros Htbl Hbar. rewrite (upsert_bar_valid tbl bar Htbl Hbar).
  now apply build_and_execute_outcome.
Qed.

Lemma fetch_bars_rejects_table (tbl symbol : string) (since_ts limit : option Z) (d : db) :
  mem tbl _ALLOWED_BAR_TABLES = false ->
  fetch_bars tbl symbol since_ts limit d
  = (inl (ValueError ("Unsupported bars table: " +:+ tbl)), d).
Proof. intros H. unfold fetch_bars. now rewrite H. Qed.

Lemma fetch_bars_no_validation_error (tbl symbol : string) (since_ts limit : option Z)
    (d : db) (e : exn) :
  mem tbl _ALLOWED_BAR_TABLES = true ->
  outcome (fetch_bars tbl symbol since_ts limit) d = inl e -> is_ValueError e = false.
Proof.
  intros H. unfold outcome, fetch_bars, _query. rewrite H. simpl.
  apply exec_select_failure.
Qed.

(** C8.  [upsert_bar] raises the validation error ([ValueError]) exactly when
    its table argument is not a supported one or its payload is empty; in both
    cases, and on every other failure as well, the store is left as it was. *)
Theorem upsert_bar_validation_error (tbl : string) (bar : dict) (d : db) :
  ((exists e, outcome (upsert_bar tbl bar) d = inl e /\ is_ValueError e = true)
   <-> (mem tbl _ALLOWED_BAR_TABLES = false \/ bar = []))
  /\ ((mem tbl _ALLOWED_BAR_TABLES = false \/ bar = []) ->
      exec (upsert_bar tbl bar) d = d)
  /\ (forall e, outcome (upsert_bar tbl bar) d = inl e -> exec (upsert_bar tbl bar) d = d).
Proof.
  unfold outcome, exec.
  destruct (mem tbl _ALLOWED_BAR_TABLES) eqn:Htbl.
  - destruct bar as [|kv bar].
    + rewrite (upsert_bar_rejects_empty tbl d Htbl). simpl.
      repeat split; eauto.
    + destruct (upsert_bar_outcome tbl (kv :: bar) d Htbl) as [[d' E]|[e [E He]]];
        [discriminate| |]; rewrite E; simpl.
      * repeat split; try discriminate.
        -- intros [e [He _]]. discriminate.
        -- intros [H|H]; discriminate.
        -- intros [H|H]; discriminate.
      * repeat split; try reflexivity.
        -- intros [e' [He' Hv]]. injection He' as <-. congruence.
        -- intros [H|H]; discriminate.
  - rewrite (upsert_bar_rejects_table tbl bar d Htbl). simpl.
    repeat split; eauto.
Qed.

(** C3, as the code has it.  The values [upsert_bar] and [fetch_bars] accept
    are exactly the three table names [bars_1m], [bars_5m] and [bars_15m]:
    each of them passes validation (no [ValueError] is raised for it, whatever
    the other arguments, a non-empty payload given), and every other value is
    rejected with a [ValueError] before anything is read or written. *)
Theorem accepted_tables_exactly (tbl : string) :
  ((tbl = "bars_1m" \/ tbl = "bars_5m" \/ tbl = "bars_15m") ->
     (forall bar d e, bar <> [] ->
        outcome (upsert_bar tbl bar) d = inl e -> is_ValueError e = false)
     /\ (forall symbol since_ts limit d e,
           outcome (fetch_bars tbl symbol since_ts limit) d = inl e ->
           is_ValueError e = false))
  /\ (~ (tbl = "bars_1m" \/ tbl = "bars_5m" \/ tbl = "bars_15m") ->
     (forall bar d,
        upsert_bar tbl bar d
        = (inl (ValueError ("Unsupported bars table: " +:+ tbl)), d))
     /\ (forall symbol since_ts limit d,
           fetch_bars tbl symbol since_ts limit d
           = (inl (ValueError ("Unsupported bars table: " +:+ tbl)), d))).
Proof.
  split.
  - intros H. apply allowed_tables in H. split.
    + intros bar d e Hbar. unfold outcome.
      destruct (upsert_bar_outcome tbl bar d H Hbar) as [[d' E]|[e' [E He']]];
        rewrite E; simpl; [discriminate|].
      intros [= <-]. exact He'.
    + intros symbol since_ts limit d e. now apply fetch_bars_no_validation_error.
  - intros H. rewrite <- allowed_tables in H.
    destruct (mem tbl _ALLOWED_BAR_TABLES) eqn:E; [congruence|].
    split; intros.
    + now apply upsert_bar_rejects_table.
    + now apply fetch_bars_rejects_table.
Qed.

(** C3, as stated, fails: the timeframe names [1m], [5m] and [15m] themselves
    are rejected by both operations, while the table name [bars_1m] is
    accepted. *)
Lemma timeframe_names_rejected :
  let bar := [("symbol", VText "BTCUSDT"); ("close_ts", VInt 60)] in
  outcome (upsert_bar "1m" bar) empty_store
    = inl (ValueError "Unsupported bars table: 1m")
  /\ outcome (upsert_bar "5m" bar) empty_store
    = inl (ValueError "Unsupported bars table: 5m")
  /\ outcome (upsert_bar "15m" bar) empty_store
    = inl (ValueError "Unsupported bars table: 15m")
  /\ outcome (fetch_bars "1m" "BTCUSDT" None None) empty_store
    = inl (ValueError "Unsupported bars table: 1m")
  /\ outcome (upsert_bar "bars_1m" bar) empty_store = inr tt.
Proof. vm_compute. repeat split. Qed.

End Validation.

(** ** Writes keyed by a unique index *)

Section Writes.

Import sqlite_manager.

Lemma set_rows_same (t : table) : set_rows t (trows t) = t.
Proof. now destruct t. Qed.

Lemma upsert_rows_do_nothing (key : list string) (e : row) (rs : list row) :
  existsb (fun r => key_conflict key r e) rs = true ->
  upsert_rows key DoNothing e rs = rs.
Proof.
  induction rs as [|r rs IH]; simpl; [discriminate|].
  destruct (key_conflict key r e); simpl; [reflexivity|].
  intros H. now rewrite IH.
Qed.

Lemma key_conflict_id (r e : row) :
  key_conflict ["id"] r e = sql_eqb (row_get r "id") (row_get e "id").
Proof. unfold key_conflict. simpl. apply andb_true_r. Qed.






(** C10.  For [insert_event], [upsert_rule] and [upsert_token]: when the
    payload holds the key column [id] alone and the table has a row with that
    id, the call raises nothing and leaves the whole store, that row
    included, as it was. *)
Theorem id_only_payload_does_nothing (tbl : string) (write : dict -> M unit)
    (v : value) (d : db) (t : table) (r : row) :
  In (tbl, write) writes_by_id ->
  d !! tbl = Some t ->
  same_columns ["id"] (tkey t) = true ->
  mem "id" (tcols t) = true ->
  In r (trows t) ->
  sql_eqb (row_get r "id") v = true ->
  write [("id", v)] d = (inr tt, d).
Proof.
  intros Hw Ht Hkey Hcol Hr Hid.
  assert (H : build_and_execute tbl [("id", v)] ["id"] None d = (inr tt, d)).
  { rewrite (build_and_execute_ok tbl _ ["id"] None d t); try assumption;
      [| discriminate | simpl; now rewrite Hcol].
    f_equal. unfold table_after.
    change (action_of (update_columns_of [("id", v)] ["id"] (skip_list None)))
      with DoNothing.
    rewrite upsert_rows_do_nothing; [rewrite set_rows_same; now apply insert_id|].
    apply existsb_exists. exists r. split; [exact Hr|].
    rewrite <- (key_conflict_same_columns ["id"] (tkey t) _ _ Hkey), key_conflict_id.
    change (list_to_map [("id", v)]) with (row_of_dict [("id", v)]).
    rewrite row_get_row_of_dict. exact Hid. }
  simpl in Hw. destruct Hw as [E|[E|[E|[]]]]; injection E as <- <-; exact H.
Qed.

Lemma id_only_payload_witness :
  sqlite_manager.insert_event [("id", VText "e1")] store_with_event
  = (inr tt, store_with_event).
Proof.
  apply (id_only_payload_does_nothing "events" sqlite_manager.insert_event
           (VText "e1") store_with_event sample_events_table (row_of_dict sample_event)).
  - simpl. now left.
  - vm_compute. reflexivity.
  - reflexivity.
  - reflexivity.
  - simpl. now left.
  - vm_compute. reflexivity.
Defined.












(** The example of the specification: [bid] stays 5, [close] becomes 4 and
    the column the second write leaves out ([trades]) stays 7. *)
Example merge_keeps_bid :
  let d := exec (sqlite_manager.upsert_bar "bars_1m" sample_bar_again)
                (exec (sqlite_manager.upsert_bar "bars_1m" sample_bar) empty_store) in
  map (fun r => (row_get r "bid", row_get r "close", row_get r "trades"))
      (rows_of d "bars_1m")
  = [(VInt 5, VInt 4, VInt 7)].
Proof. vm_compute. reflexivity. Qed.

End Writes.

(** ** The watermark *)

Section Watermark.

Import sqlite_manager.

Lemma kv_excluded_get (key value : string) (updated_at : Z) :
  row_get (kv_excluded key value updated_at) "key" = VText key
  /\ row_get (kv_excluded key value updated_at) "value" = VText value
  /\ row_get (kv_excluded key value updated_at) "updated_at" = VInt updated_at.
Proof.
  unfold kv_excluded.
  change [VText key; VText value; VInt updated_at]
    with (map (fun c => if String.eqb c "key" then VText key
                        else if String.eqb c "value" then VText value
                        else VInt updated_at)
              ["key"; "value"; "updated_at"]).
  unfold row_get. rewrite !zip_map_lookup. repeat split.
Qed.

(** After the write, the first row a lookup by key finds holds what was
    written. *)
Lemma first_hit_after_write (key value : string) (updated_at : Z)
    (index : list string) (rs : list row) :
  same_columns ["key"] index = true ->
  exists r rest,
    List.filter (fun r => forallb (eval_cond r) [CEq "key" (VText key)])
                (upsert_rows index (DoUpdate ["value"; "updated_at"])
                             (kv_excluded key value updated_at) rs)
    = r :: rest
    /\ row_get r "key" = VText key
    /\ row_get r "value" = VText value
    /\ row_get r "updated_at" = VInt updated_at.
Proof.
  intros Hkey.
  destruct (kv_excluded_get key value updated_at) as (Ek & Ev & Et).
  assert (Hc : forall r, key_conflict index r (kv_excluded key value updated_at)
                         = sql_eqb (row_get r "key") (VText key)).
  { intros r. rewrite <- (key_conflict_same_columns ["key"] index _ _ Hkey).
    unfold key_conflict. simpl. now rewrite Ek, andb_true_r. }
  assert (Hhit : forall r, forallb (eval_cond r) [CEq "key" (VText key)]
                           = sql_eqb (row_get r "key") (VText key)).
  { intros r. simpl. apply andb_true_r. }
  induction rs as [|r rs IH]; cbn [upsert_rows].
  - cbn [List.filter]. rewrite Hhit, Ek, (sql_eqb_refl (VText key) eq_refl).
    eauto 10.
  - rewrite Hc. destruct (sql_eqb (row_get r "key") (VText key)) eqn:E;
      cbn [List.filter resolve]; rewrite Hhit.
    + rewrite apply_update_get. cbn [mem existsb String.eqb Ascii.eqb Bool.eqb orb].
      rewrite E. eexists _, _. split; [reflexivity|].
      rewrite !apply_update_get. apply sql_eqb_text in E.
      cbn [mem existsb String.eqb Ascii.eqb Bool.eqb orb]. auto.
    + rewrite E. exact IH.
Qed.

Lemma set_kv_then_get_kv (key value : string) (updated_at : Z) (d : db) (t : table) :
  d !! "kv_state" = Some t ->
  same_columns ["key"] (tkey t) = true ->
  subset_of ["key"; "value"; "updated_at"] (tcols t) = true ->
  exists t',
    tcols t' = tcols t /\ tkey t' = tkey t
    /\ set_kv key value updated_at d = (inr tt, <["kv_state" := t']> d)
    /\ get_kv key (<["kv_state" := t']> d)
       = (inr (Some [("key", VText key); ("value", VText value);
                     ("updated_at", VInt updated_at)]),
          <["kv_state" := t']> d).
Proof.
  intros Ht Hkey Hcols.
  eexists. split; [|split; [|split]]; cycle 2.
  - unfold set_kv, _execute. rewrite (exec_upsert_ok _ _ d t); try assumption;
      try reflexivity.
    cbn [u_action update_set]. apply subset_of_In. rewrite subset_of_In in Hcols.
    intros x Hx. apply Hcols. simpl in Hx |- *. tauto.
  - unfold get_kv, _query, bind.
    match goal with |- context [exec_select ?st ?d'] =>
      rewrite (exec_select_ok st d' _ (lookup_insert_eq _ _ _))
    end; [| | reflexivity].
    2:{ apply subset_of_In. rewrite subset_of_In in Hcols.
        intros x Hx. apply Hcols. simpl in Hx |- *. intuition. }
    unfold limited, selected, select_columns, ret.
    cbn [s_limit s_order s_where s_columns set_rows trows
         u_action u_columns u_table u_conflict].
    destruct (first_hit_after_write key value updated_at (tkey t) (trows t) Hkey)
      as (r & rest & Hhit & Ek & Ev & Et).
    fold (kv_excluded key value updated_at). rewrite Hhit. simpl.
    now rewrite Ek, Ev, Et.
  - reflexivity.
  - reflexivity.
Qed.

(** C9.  [set_kv key value t] followed by [get_kv key] returns the record
    just written, and a later [set_kv] for the same key replaces both its
    value and its [updated_at]: the last write wins. *)
Theorem set_kv_get_kv_round_trip (key value : string) (updated_at : Z)
    (d : db) (t : table) :
  d !! "kv_state" = Some t ->
  same_columns ["key"] (tkey t) = true ->
  subset_of ["key"; "value"; "updated_at"] (tcols t) = true ->
  exists d',
    set_kv key value updated_at d = (inr tt, d')
    /\ get_kv key d'
       = (inr (Some [("key", VText key); ("value", VText value);
                     ("updated_at", VInt updated_at)]), d')
    /\ forall value' updated_at',
         exists d'',
           set_kv key value' updated_at' d' = (inr tt, d'')
           /\ get_kv key d''
              = (inr (Some [("key", VText key); ("value", VText value');
                            ("updated_at", VInt updated_at')]), d'').
Proof.
  intros Ht Hkey Hcols.
  destruct (set_kv_then_get_kv key value updated_at d t Ht Hkey Hcols)
    as (t' & Hc & Hk & Hset & Hget).
  eexists. split; [exact Hset|]. split; [exact Hget|].
  intros value' updated_at'.
  destruct (set_kv_then_get_kv key value' updated_at' (<["kv_state" := t']> d) t')
    as (t'' & _ & _ & Hset' & Hget').
  - apply lookup_insert_eq.
  - now rewrite Hk.
  - now rewrite Hc.
  - eexists. split; [exact Hset' | exact Hget'].
Qed.

Lemma set_kv_get_kv_witness :
  exists d',
    sqlite_manager.set_kv "cursor:BTCUSDT" "1700000000" 1700000100 empty_store
    = (inr tt, d')
    /\ sqlite_manager.get_kv "cursor:BTCUSDT" d'
       = (inr (Some [("key", VText "cursor:BTCUSDT"); ("value", VText "1700000000");
                     ("updated_at", VInt 1700000100)]), d')
    /\ forall value' updated_at',
         exists d'',
           sqlite_manager.set_kv "cursor:BTCUSDT" value' updated_at' d' = (inr tt, d'')
           /\ sqlite_manager.get_kv "cursor:BTCUSDT" d''
              = (inr (Some [("key", VText "cursor:BTCUSDT"); ("value", VText value');
                            ("updated_at", VInt updated_at')]), d'').
Proof.
  apply (set_kv_get_kv_round_trip "cursor:BTCUSDT" "1700000000" 1700000100
           empty_store sample_kv_table).
  - vm_compute. reflexivity.
  - reflexivity.
  - reflexivity.
Defined.

End Watermark.

(** ** Counting identities *)

Section Identities.

Lemma same_identity_refl (k : list value) :
  complete k = true -> same_identity k k = true.
Proof.
  induction k as [|v k IH]; simpl; [reflexivity|].
  intros H. apply andb_prop in H as [Hv Hk].
  rewrite sql_eqb_refl, (IH Hk); [reflexivity|].
  now destruct (is_null v).
Qed.

Lemma same_identity_complete (k1 : list value) :
  forall k2, same_identity k1 k2 = true -> complete k1 = true /\ complete k2 = true.
Proof.
  induction k1 as [|a k1 IH]; intros [|b k2]; simpl; try discriminate; [auto|].
  intros H. apply andb_prop in H as [E H].
  apply sql_eqb_not_null in E as [-> ->]. simpl. now apply IH.
Qed.














End Identities.

(** ** Uniqueness of the bar identity *)

Section Uniqueness.

Import sqlite_manager.

Lemma same_columns_refl (k : list string) : same_columns k k = true.
Proof. unfold same_columns. now rewrite subset_of_refl. Qed.

Lemma same_columns_sym (k1 k2 : list string) : same_columns k1 k2 = same_columns k2 k1.
Proof. unfold same_columns. apply andb_comm. Qed.


Lemma schema_of_lookup (d : db) (tbl : string) (cols key : list string) :
  schema_of d tbl = Some (cols, key) ->
  exists t, d !! tbl = Some t /\ tcols t = cols /\ tkey t = key.
Proof.
  unfold schema_of. destruct (d !! tbl) as [t|]; [|discriminate].
  intros [= <- <-]. eauto.
Qed.











End Uniqueness.

(** ** Reading bars *)

Section Reading.

Import sqlite_manager.

Lemma order_leb_single (c : string) (a b : row) :
  order_leb [c] a b = value_leb (row_get a c) (row_get b c).
Proof.
  unfold order_leb, value_leb. simpl.
  now destruct (value_compare (row_get a c) (row_get b c)).
Qed.

Lemma insert_sorted_In (cols : list string) (r x : row) (rs : list row) :
  In x (insert_sorted cols r rs) <-> x = r \/ In x rs.
Proof.
  induction rs as [|r' rs IH]; simpl; [intuition|].
  destruct (order_leb cols r r'); simpl; [intuition|].
  rewrite IH. intuition.
Qed.

Lemma sort_rows_In (cols : list string) (x : row) (rs : list row) :
  In x (sort_rows cols rs) <-> In x rs.
Proof.
  unfold sort_rows. induction rs as [|r rs IH]; simpl; [reflexivity|].
  rewrite insert_sorted_In, IH. intuition.
Qed.

Lemma sort_rows_length (cols : list string) (rs : list row) :
  length (sort_rows cols rs) = length rs.
Proof.
  unfold sort_rows. induction rs as [|r rs IH]; simpl; [reflexivity|].
  rewrite <- IH. generalize (foldr (insert_sorted cols) [] rs). intros l.
  induction l as [|r' l IHl]; simpl; [reflexivity|].
  destruct (order_leb cols r r'); simpl; [reflexivity | now rewrite IHl].
Qed.

Lemma insert_sorted_ascending (c : string) (r : row) (rs : list row) :
  StronglySorted (ascending c) rs ->
  StronglySorted (ascending c) (insert_sorted [c] r rs).
Proof.
  induction 1 as [|r' rs Hs IH Hall]; simpl.
  - constructor; constructor.
  - rewrite order_leb_single.
    destruct (value_leb (row_get r c) (row_get r' c)) eqn:E.
    + constructor; [now constructor|].
      constructor; [exact E|].
      apply List.Forall_forall. intros x Hx. rewrite List.Forall_forall in Hall.
      exact (value_leb_trans _ _ _ E (Hall x Hx)).
    + constructor; [exact IH|].
      apply List.Forall_forall. intros x Hx. apply insert_sorted_In in Hx as [->|Hx].
      * now apply value_leb_total.
      * rewrite List.Forall_forall in Hall. now apply Hall.
Qed.

Lemma sort_rows_ascending (c : string) (rs : list row) :
  StronglySorted (ascending c) (sort_rows [c] rs).
Proof.
  unfold sort_rows. induction rs as [|r rs IH]; simpl; [constructor|].
  now apply insert_sorted_ascending.
Qed.

Lemma In_firstn_weak {A} (n : nat) (x : A) (l : list A) :
  In x (firstn n l) -> In x l.
Proof.
  revert l. induction n as [|n IH]; intros [|a l]; simpl; try tauto.
  intros [->|H]; auto.
Qed.

Lemma StronglySorted_firstn {A} (R : A -> A -> Prop) (n : nat) (l : list A) :
  StronglySorted R l -> StronglySorted R (firstn n l).
Proof.
  intros H. revert n. induction H as [|a l Hs IH Hall]; intros [|n]; simpl;
    try constructor; [apply IH|].
  rewrite List.Forall_forall in *. intros x Hx. apply Hall.
  now apply (In_firstn_weak n).
Qed.

Lemma apply_limit_In (n : Z) (x : row) (rs : list row) :
  In x (apply_limit n rs) -> In x rs.
Proof.
  unfold apply_limit. destruct (n <? 0); [auto|]. apply In_firstn_weak.
Qed.

Lemma apply_limit_ascending (c : string) (n : Z) (rs : list row) :
  StronglySorted (ascending c) rs -> StronglySorted (ascending c) (apply_limit n rs).
Proof.
  unfold apply_limit. destruct (n <? 0); [auto|]. apply StronglySorted_firstn.
Qed.

Lemma apply_limit_length (n : Z) (rs : list row) :
  0 <= n -> Z.of_nat (length (apply_limit n rs)) <= n.
Proof.
  intros Hn. unfold apply_limit.
  destruct (Z.ltb_spec n 0) as [H|_]; [lia|].
  pose proof (firstn_le_length (Z.to_nat n) rs). lia.
Qed.

Lemma StronglySorted_map {A B} (f : A -> B) (R : A -> A -> Prop) (R' : B -> B -> Prop)
    (l : list A) :
  (forall a b, R a b -> R' (f a) (f b)) ->
  StronglySorted R l -> StronglySorted R' (map f l).
Proof.
  intros HR. induction 1 as [|a l Hs IH Hall]; simpl; constructor; [exact IH|].
  apply List.Forall_forall. intros y Hy. apply in_map_iff in Hy as (x & <- & Hx).
  rewrite List.Forall_forall in Hall. auto.
Qed.

Lemma field_row_to_dict (cols : list string) (r : row) (c : string) :
  mem c cols = true -> field (row_to_dict cols r) c = row_get r c.
Proof.
  intros H. unfold field, dict_get_default. now rewrite row_to_dict_get, H.
Qed.

Lemma sql_geb_int (z ts : Z) : sql_geb (VInt z) (VInt ts) = true <-> ts <= z.
Proof. unfold sql_geb. simpl. apply value_leb_int. Qed.

Lemma limited_In (st : select_stmt) (x : row) (rs : list row) :
  In x (limited st rs) -> In x rs.
Proof.
  unfold limited. destruct (s_limit st) as [[]|]; auto. apply apply_limit_In.
Qed.

Lemma bars_query_hits (tbl symbol : string) (since_ts limit : option Z)
    (t : table) (r : row) :
  In r (limited (bars_query tbl symbol since_ts limit)
                (selected (bars_query tbl symbol since_ts limit) t)) ->
  row_get r "symbol" = VText symbol
  /\ forall ts, since_ts = Some ts -> sql_geb (row_get r "close_ts") (VInt ts) = true.
Proof.
  intros H. apply limited_In in H. unfold selected in H.
  cbn [bars_query s_order s_where] in H.
  apply sort_rows_In, filter_In in H as [_ H].
  destruct since_ts as [ts|]; cbn [app forallb eval_cond] in H.
  - apply andb_prop in H as [Hs H]. apply andb_prop in H as [Hg _].
    split; [now apply sql_eqb_text|]. now intros ? [= <-].
  - apply andb_prop in H as [Hs _].
    split; [now apply sql_eqb_text | discriminate].
Qed.

(** C7, as the code has it.  For a supported table, [fetch_bars] returns
    bars of the symbol asked for only, in non-decreasing order of [close_ts];
    with [since_ts] every bar has [close_ts >= since_ts]; with a [limit] that
    is not negative at most [limit] bars come back. *)
Theorem fetch_bars_result (tbl symbol : string) (since_ts limit : option Z)
    (d : db) (t : table) :
  mem tbl _ALLOWED_BAR_TABLES = true ->
  d !! tbl = Some t ->
  subset_of ["symbol"; "close_ts"] (tcols t) = true ->
  exists bars,
    fetch_bars tbl symbol since_ts limit d = (inr bars, d)
    /\ Forall (fun b => field b "symbol" = VText symbol) bars
    /\ StronglySorted
         (fun a b => value_leb (field a "close_ts") (field b "close_ts") = true) bars
    /\ (forall ts, since_ts = Some ts ->
          Forall (fun b => sql_geb (field b "close_ts") (VInt ts) = true) bars)
    /\ (forall ts b z, since_ts = Some ts -> In b bars ->
          field b "close_ts" = VInt z -> ts <= z)
    /\ (forall n, limit = Some n -> 0 <= n -> Z.of_nat (length bars) <= n).
Proof.
  intros Htbl Ht Hcols.
  assert (Hsym : mem "symbol" (tcols t) = true).
  { apply mem_In. rewrite subset_of_In in Hcols. apply Hcols. simpl. auto. }
  assert (Hts : mem "close_ts" (tcols t) = true).
  { apply mem_In. rewrite subset_of_In in Hcols. apply Hcols. simpl. auto. }
  set (st := bars_query tbl symbol since_ts limit).
  assert (Hrun : fetch_bars tbl symbol since_ts limit d
                 = (inr (map (row_to_dict (tcols t)) (limited st (selected st t))), d)).
  { unfold fetch_bars, _query. rewrite Htbl. cbn [negb].
    change (exec_select st d = (inr (map (row_to_dict (select_columns st t))
                                         (limited st (selected st t))), d)).
    apply exec_select_ok; [exact Ht | | now destruct limit].
    apply subset_of_In. intros x Hx.
    apply in_app_or in Hx as [Hx|Hx]; [exact Hx|].
    apply in_app_or in Hx as [Hx|Hx].
    - apply mem_In. destruct since_ts; simpl in Hx; intuition; subst; assumption.
    - apply mem_In. simpl in Hx. intuition; subst; assumption. }
  eexists. split; [exact Hrun|].
  assert (Hin : forall b, In b (map (row_to_dict (tcols t)) (limited st (selected st t))) ->
                          exists r, b = row_to_dict (tcols t) r
                                    /\ In r (limited st (selected st t))).
  { intros b Hb. apply in_map_iff in Hb as (r & <- & Hr). eauto. }
  repeat split.
  - apply List.Forall_forall. intros b Hb. destruct (Hin b Hb) as (r & -> & Hr).
    rewrite (field_row_to_dict _ _ _ Hsym). now apply (bars_query_hits _ _ _ _ _ _ Hr).
  - apply (StronglySorted_map _ (ascending "close_ts")).
    + intros a b Hab. now rewrite !(field_row_to_dict _ _ _ Hts).
    + unfold limited, selected. subst st. cbn [bars_query s_limit s_order].
      destruct limit as [n|]; [apply apply_limit_ascending|]; apply sort_rows_ascending.
  - intros ts Hsince. apply List.Forall_forall. intros b Hb.
    destruct (Hin b Hb) as (r & -> & Hr).
    rewrite (field_row_to_dict _ _ _ Hts).
    now apply (bars_query_hits _ _ _ _ _ _ Hr).
  - intros ts b z Hsince Hb Hz. destruct (Hin b Hb) as (r & -> & Hr).
    rewrite (field_row_to_dict _ _ _ Hts) in Hz.
    apply (bars_query_hits _ _ _ _ _ _ Hr) in Hsince.
    rewrite Hz in Hsince. now apply sql_geb_int.
  - intros n -> Hn. rewrite length_map. unfold limited. subst st.
    cbn [bars_query s_limit]. now apply apply_limit_length.
Qed.

Lemma fetch_bars_result_witness :
  exists bars,
    sqlite_manager.fetch_bars "bars_1m" "CAKE" (Some 60) (Some 1) store_with_bar
    = (inr bars, store_with_bar)
    /\ Forall (fun b => field b "symbol" = VText "CAKE") bars
    /\ StronglySorted
         (fun a b => value_leb (field a "close_ts") (field b "close_ts") = true) bars
    /\ (forall ts, Some 60 = Some ts ->
          Forall (fun b => sql_geb (field b "close_ts") (VInt ts) = true) bars)
    /\ (forall ts b z, Some 60 = Some ts -> In b bars ->
          field b "close_ts" = VInt z -> ts <= z)
    /\ (forall n, Some 1 = Some n -> 0 <= n -> Z.of_nat (length bars) <= n).
Proof.
  apply (fetch_bars_result "bars_1m" "CAKE" (Some 60) (Some 1)
           store_with_bar sample_bars_table).
  - reflexivity.
  - vm_compute. reflexivity.
  - reflexivity.
Defined.

(** C7, as stated, fails: a negative [limit] puts no cap on the result. *)
Lemma negative_limit_returns_all :
  let d := exec (upsert_each [("bars_1m", sample_bar); ("bars_1m", sample_bar_next)])
                empty_store in
  let count := fun r : exn + list dict =>
                 match r with inr bars => Z.of_nat (length bars) | inl _ => 0 end in
  count (outcome (sqlite_manager.fetch_bars "bars_1m" "CAKE" None (Some (-1))) d) = 2
  /\ count (outcome (sqlite_manager.fetch_bars "bars_1m" "CAKE" None (Some 1)) d) = 1
  /\ (-1 <? 2) = true.
Proof. vm_compute. repeat split. Qed.

End Reading.

(** ** The ingestion cycle *)

Section Ingestion.

Import sqlite_manager dex_api.





Lemma getitem_present (p : dict) (c : string) :
  dict_contains p c = true -> getitem p c = inr (payload_value p c).
Proof.
  unfold dict_contains, getitem, payload_value, dict_get_default.
  now destruct (dict_get p c).
Qed.

Lemma bar_payload_tagged (token bar : dict) :
  dict_contains token "exchange" = true -> dict_contains token "symbol" = true ->
  bar_payload token bar = inr (tagged token bar).
Proof.
  intros He Hs. unfold bar_payload.
  now rewrite (getitem_present _ _ He), (getitem_present _ _ Hs).
Qed.

Lemma upsert_bar_succeeds (tbl : string) (bar : dict) (d : db) (cols key : list string) :
  mem tbl _ALLOWED_BAR_TABLES = true -> bar <> [] ->
  schema_of d tbl = Some (cols, key) ->
  same_columns bar_identity key = true ->
  subset_of (dict_keys bar) cols = true ->
  exists d', upsert_bar tbl bar d = (inr tt, d').
Proof.
  intros Htbl Hbar Hs Hkey Hcols.
  apply schema_of_lookup in Hs as (t & Ht & <- & <-).
  rewrite (upsert_bar_valid _ _ Htbl Hbar).
  rewrite (build_and_execute_ok _ _ bar_identity (Some ["bid"]) d t Hbar Ht Hcols Hkey).
  eauto.
Qed.

Lemma upsert_each_app (l1 l2 : list (string * dict)) :
  forall d d1,
    upsert_each l1 d = (inr tt, d1) ->
    upsert_each (l1 ++ l2) d = upsert_each l2 d1.
Proof.
  induction l1 as [|[tbl bar] l1 IH]; intros d d1; cbn [upsert_each app].
  - unfold ret. now intros [= <-].
  - unfold bind. destruct (upsert_bar tbl bar d) as [[e|[]] d0]; [discriminate|].
    apply IH.
Qed.







Lemma cycle_writes_app (_ADAPTERS : registry) (since_ts : option Z)
    (tokens tokens' : list dict) :
  cycle_writes _ADAPTERS since_ts (tokens ++ tokens')
  = cycle_writes _ADAPTERS since_ts tokens ++ cycle_writes _ADAPTERS since_ts tokens'.
Proof. unfold cycle_writes. now rewrite map_app, concat_app. Qed.















(** The example of the specification: two bars, a failing market and three
    bars make a count of five, and each market that answered has its rows. *)
Example cycle_of_three_markets :
  let d := exec (dex_api.sync_registered_tokens sample_adapters None) sample_market_store in
  outcome (dex_api.sync_registered_tokens sample_adapters None) sample_market_store = inr 5
  /\ map (fun r => (row_get r "symbol", row_get r "close_ts")) (rows_of d "bars_1m")
     = [(VText "AAA", VInt 60); (VText "AAA", VInt 120);
        (VText "CCC", VInt 60); (VText "CCC", VInt 120); (VText "CCC", VInt 180)].
Proof. vm_compute. repeat split. Qed.

(** A failure that is not an [Exception] is not caught: it ends the cycle. *)
Example cancellation_ends_the_cycle :
  outcome (dex_api.sync_registered_tokens
             (<["flaky" := dex_api.mkAdapter (fun _ _ _ _ => inl CancelledError)]>
                sample_adapters) None)
          sample_market_store
  = inl CancelledError.
Proof. vm_compute. reflexivity. Qed.

End Ingestion.

(** ** The read operations the dashboard asks for *)

Section Dashboard.

(** C4 fails on the code.  Of the store operations the user interface reads,
    [list_rules] and [list_tokens] are defined by the storage module, while
    [fetch_latest_bar] and [fetch_undelivered_events] are neither defined nor
    exported: whatever symbols are configured, the first store read of
    [_dashboard] ends in an [AttributeError]. *)
Theorem dashboard_reads_undefined (symbols : list string) :
  List.filter (fun name => negb (mem name sqlite_manager.module_names)) ui_app.store_reads
  = ["fetch_latest_bar"; "fetch_undelivered_events"]
  /\ List.filter (fun name => negb (mem name sqlite_manager.__all__)) ui_app.store_reads
     = ["fetch_latest_bar"; "fetch_undelivered_events"]
  /\ ui_app.first_failure (ui_app._dashboard_reads symbols)
     = Some (AttributeError (match symbols with
                             | [] => "fetch_undelivered_events"
                             | _ :: _ => "fetch_latest_bar"
                             end)).
Proof.
  repeat split; try reflexivity.
  destruct symbols; reflexivity.
Qed.

End Dashboard.


(** * Further properties of the code *)

(** ** Building and executing a write *)

Section MoreWrites.

Import sqlite_manager.












End MoreWrites.

(** ** What a write keeps *)

Section WriteInvariants.

Import sqlite_manager.

(** A write of a non-empty payload either fails and leaves the database as
    it was, or finds its table, with the index the statement names and a
    column for every key, and replaces the rows of that table. *)
Lemma build_and_execute_cases (tbl : string) (p : dict) (conflict : list string)
    (skip : option (list string)) (d : db) :
  p <> [] ->
  (exists e, build_and_execute tbl p conflict skip d = (inl e, d))
  \/ (exists t columns action,
        d !! tbl = Some t
        /\ same_names conflict (tkey t) = true
        /\ resolve_columns (tcols t) (dict_keys p) = Some columns
        /\ resolve_action (tcols t)
             (action_of (update_columns_of p conflict (skip_list skip))) = Some action
        /\ build_and_execute tbl p conflict skip d
           = (inr tt,
              <[tbl := set_rows t (upsert_rows (tkey t) action (excluded_row columns p)
                                               (trows t))]> d)).
Proof.
  intros Hp. unfold build_and_execute, bind, lift.
  rewrite (build_upsert_sql_ok tbl p conflict skip Hp). cbn [fst snd].
  match goal with |- context [exec_upsert ?st ?ps d] =>
    destruct (exec_upsert_cases st ps d)
      as [(e & Hrun & _)|(t & columns & action & Ht & Hcols & Hact & Hkey & Hrun)];
      rewrite Hrun
  end; [eauto|].
  right. exists t, columns, action. auto.
Qed.

Lemma upsert_bar_cases (tbl : string) (bar : dict) (d : db) :
  (exists e, upsert_bar tbl bar d = (inl e, d))
  \/ (exists t columns action,
        d !! tbl = Some t
        /\ same_names bar_identity (tkey t) = true
        /\ resolve_columns (tcols t) (dict_keys bar) = Some columns
        /\ resolve_action (tcols t)
             (action_of (update_columns_of bar bar_identity ["bid"])) = Some action
        /\ upsert_bar tbl bar d
           = (inr tt,
              <[tbl := set_rows t (upsert_rows (tkey t) action (excluded_row columns bar)
                                               (trows t))]> d)).
Proof.
  destruct (mem tbl _ALLOWED_BAR_TABLES) eqn:Htbl.
  - destruct bar as [|kv bar].
    + left. rewrite (upsert_bar_rejects_empty tbl d Htbl). eauto.
    + rewrite (upsert_bar_valid tbl (kv :: bar) Htbl) by discriminate.
      now apply build_and_execute_cases.
  - left. rewrite (upsert_bar_rejects_table tbl bar d Htbl). eauto.
Qed.

(** [upsert_bar] reads and writes the table it is given and no other:
    whatever its outcome, every other table is left as it was. *)
Theorem upsert_bar_other_tables (tbl : string) (bar : dict) (d : db) (tbl' : string) :
  tbl' <> tbl ->
  exec (upsert_bar tbl bar) d !! tbl' = d !! tbl'.
Proof.
  intros Hne. unfold exec.
  destruct (upsert_bar_cases tbl bar d)
    as [[e Hrun]|(t & columns & action & _ & _ & _ & _ & Hrun)];
    rewrite Hrun; cbn [snd]; [reflexivity|].
  now apply lookup_insert_ne.
Qed.

Lemma upsert_bar_other_tables_witness :
  exec (sqlite_manager.upsert_bar "bars_1m" sample_bar) store_with_event !! "events"
  = store_with_event !! "events".
Proof.
  apply (upsert_bar_other_tables "bars_1m" sample_bar store_with_event "events").
  discriminate.
Defined.


(** The unique index survives every [upsert_bar]: a table on which no two
    rows collide is such a table afterwards, with the columns and the index
    it had, whether the call succeeds or fails. *)
Theorem upsert_bar_keeps_unique_index (tbl : string) (bar : dict) (d : db) (t : table) :
  d !! tbl = Some t ->
  unique_rows (tkey t) (trows t) = true ->
  exists t',
    exec (upsert_bar tbl bar) d !! tbl = Some t'
    /\ tcols t' = tcols t /\ tkey t' = tkey t
    /\ unique_rows (tkey t') (trows t') = true.
Proof.
  intros Ht Hu. unfold exec.
  destruct (upsert_bar_cases tbl bar d)
    as [[e Hrun]|(t0 & columns & action & Ht0 & _ & _ & _ & Hrun)];
    rewrite Hrun; cbn [snd]; [exists t; auto|].
  rewrite Ht in Ht0. injection Ht0 as <-.
  rewrite lookup_insert_eq. eexists. split; [reflexivity|].
  cbn [set_rows tcols tkey trows]. repeat split.
  now apply upsert_rows_keeps_unique.
Qed.

Lemma upsert_bar_keeps_unique_index_witness :
  exists t',
    exec (sqlite_manager.upsert_bar "bars_1m" sample_bar_again) store_with_bar !! "bars_1m"
    = Some t'
    /\ tcols t' = tcols sample_bars_table /\ tkey t' = tkey sample_bars_table
    /\ unique_rows (tkey t') (trows t') = true.
Proof.
  apply (upsert_bar_keeps_unique_index "bars_1m" sample_bar_again store_with_bar
           sample_bars_table).
  - vm_compute. reflexivity.
  - reflexivity.
Defined.

End WriteInvariants.

(** ** Reading back what was written *)

Section MoreReading.

Import sqlite_manager.

Lemma fetch_bars_run (tbl symbol : string) (since_ts limit : option Z) (d : db) (t : table) :
  mem tbl _ALLOWED_BAR_TABLES = true ->
  d !! tbl = Some t ->
  subset_of ["symbol"; "close_ts"] (tcols t) = true ->
  fetch_bars tbl symbol since_ts limit d
  = (inr (map (row_to_dict (tcols t))
              (limited (bars_query tbl symbol since_ts limit)
                       (selected (bars_query tbl symbol since_ts limit) t))), d).
Proof.
  intros Htbl Ht Hcols. set (st := bars_query tbl symbol since_ts limit).
  unfold fetch_bars, _query. rewrite Htbl. cbn [negb].
  change (exec_select st d = (inr (map (row_to_dict (select_columns st t))
                                       (limited st (selected st t))), d)).
  apply exec_select_ok; [exact Ht | | now destruct limit].
  rewrite subset_of_In in Hcols.
  apply subset_of_In. intros x Hx.
  apply in_app_or in Hx as [Hx|Hx]; [exact Hx|].
  apply Hcols. apply in_app_or in Hx as [Hx|Hx].
  - destruct since_ts; simpl in Hx |- *; tauto.
  - simpl in Hx |- *. tauto.
Qed.

(** The rows the query of [fetch_bars] selects, before LIMIT, are the rows of
    the table that have the symbol and, with [since_ts], are not older. *)
Lemma selected_bars_In (tbl symbol : string) (since_ts limit : option Z)
    (t : table) (r : row) :
  In r (selected (bars_query tbl symbol since_ts limit) t)
  <-> In r (trows t)
      /\ row_get r "symbol" = VText symbol
      /\ match since_ts with
         | Some ts => sql_geb (row_get r "close_ts") (VInt ts) = true
         | None => True
         end.
Proof.
  unfold selected. cbn [bars_query s_order s_where].
  rewrite sort_rows_In, filter_In.
  assert (Hsym : sql_eqb (row_get r "symbol") (VText symbol) = true
                 <-> row_get r "symbol" = VText symbol).
  { split; [apply sql_eqb_text|]. intros ->. now apply sql_eqb_refl. }
  destruct since_ts as [ts|]; cbn [app forallb eval_cond];
    rewrite ?andb_true_iff, Hsym; tauto.
Qed.

(** Without a limit [fetch_bars] leaves nothing out and makes nothing up:
    every row of the table that has the symbol (and, with [since_ts], is not
    older) is returned, and every record returned is a row of the table. *)
Theorem fetch_bars_complete (tbl symbol : string) (since_ts : option Z)
    (d : db) (t : table) (r : row) :
  mem tbl _ALLOWED_BAR_TABLES = true ->
  d !! tbl = Some t ->
  subset_of ["symbol"; "close_ts"] (tcols t) = true ->
  In r (trows t) ->
  row_get r "symbol" = VText symbol ->
  match since_ts with
  | Some ts => sql_geb (row_get r "close_ts") (VInt ts) = true
  | None => True
  end ->
  exists bars,
    fetch_bars tbl symbol since_ts None d = (inr bars, d)
    /\ In (row_to_dict (tcols t) r) bars
    /\ (forall b, In b bars -> exists r', In r' (trows t) /\ b = row_to_dict (tcols t) r')
    /\ (length bars <= length (trows t))%nat.
Proof.
  intros Htbl Ht Hcols Hr Hsym Hsince.
  eexists. split; [exact (fetch_bars_run tbl symbol since_ts None d t Htbl Ht Hcols)|].
  unfold limited. cbn [bars_query s_limit].
  fold (bars_query tbl symbol since_ts None). repeat split.
  - apply in_map. apply selected_bars_In. auto.
  - intros b Hb. apply in_map_iff in Hb as (r' & <- & Hr').
    apply selected_bars_In in Hr' as (Hr' & _). eauto.
  - rewrite length_map. unfold selected. cbn [bars_query s_order s_where].
    rewrite sort_rows_length. apply filter_length_le.
Qed.

Lemma fetch_bars_complete_witness :
  exists bars,
    sqlite_manager.fetch_bars "bars_1m" "CAKE" (Some 60) None store_with_bar
    = (inr bars, store_with_bar)
    /\ In (row_to_dict (tcols sample_bars_table) (row_of_dict sample_bar)) bars
    /\ (forall b, In b bars ->
          exists r', In r' (trows sample_bars_table)
                     /\ b = row_to_dict (tcols sample_bars_table) r')
    /\ (length bars <= length (trows sample_bars_table))%nat.
Proof.
  apply (fetch_bars_complete "bars_1m" "CAKE" (Some 60) store_with_bar
           sample_bars_table (row_of_dict sample_bar)).
  - reflexivity.
  - vm_compute. reflexivity.
  - reflexivity.
  - simpl. now left.
  - vm_compute. reflexivity.
  - vm_compute. reflexivity.
Defined.

(** A limit only cuts the result short: [fetch_bars] with a limit returns
    the first [limit] bars of what it returns without one (all of them for a
    negative limit), fails where it fails without one, and never writes. *)
Theorem fetch_bars_limit_prefix (tbl symbol : string) (since_ts : option Z)
    (n : Z) (d : db) :
  outcome (fetch_bars tbl symbol since_ts (Some n)) d
  = match outcome (fetch_bars tbl symbol since_ts None) d with
    | inr all => inr (if n <? 0 then all else firstn (Z.to_nat n) all)
    | inl e => inl e
    end
  /\ exec (fetch_bars tbl symbol since_ts (Some n)) d = d.
Proof.
  unfold outcome, exec, fetch_bars, _query.
  destruct (mem tbl _ALLOWED_BAR_TABLES); cbn [negb]; [|split; reflexivity].
  split; [|apply exec_select_state].
  unfold exec_select. cbn [s_table s_columns s_where s_order s_limit].
  destruct (d !! tbl) as [t|]; [|reflexivity].
  destruct (resolve_columns (tcols t) (tcols t)); [|reflexivity].
  destruct (resolve_conds _ _); [|reflexivity].
  destruct (resolve_columns _ _); [|reflexivity]. cbn [fst].
  unfold apply_limit. destruct (n <? 0); [reflexivity|].
  now rewrite firstn_map.
Qed.



End MoreReading.

(** ** The watermark, further *)

Section MoreWatermark.

Import sqlite_manager.

(** The first record [get_kv] finds in a list of rows. *)
Lemma get_kv_run (key : string) (d : db) (t : table) :
  d !! "kv_state" = Some t ->
  subset_of ["key"; "value"; "updated_at"] (tcols t) = true ->
  get_kv key d
  = (inr (match List.filter (fun r => sql_eqb (row_get r "key") (VText key)) (trows t) with
          | r :: _ => Some (row_to_dict ["key"; "value"; "updated_at"] r)
          | [] => None
          end), d).
Proof.
  intros Ht Hcols. unfold get_kv, _query, bind.
  match goal with |- context [exec_select ?st d] =>
    rewrite (exec_select_ok st d t Ht)
  end; [| | reflexivity].
  - unfold limited, selected, select_columns, ret.
    cbn [s_limit s_order s_where s_columns].
    rewrite (filter_ext _ (fun r => sql_eqb (row_get r "key") (VText key))).
    + now destruct (List.filter _ (trows t)).
    + intros r. cbn [forallb eval_cond]. apply andb_true_r.
  - apply subset_of_In. rewrite subset_of_In in Hcols.
    intros x Hx. apply Hcols. simpl in Hx |- *. tauto.
Qed.

(** [get_kv] for a key no row holds returns [None], and writes nothing. *)
Theorem get_kv_missing_key (key : string) (d : db) (t : table) :
  d !! "kv_state" = Some t ->
  subset_of ["key"; "value"; "updated_at"] (tcols t) = true ->
  existsb (fun r => sql_eqb (row_get r "key") (VText key)) (trows t) = false ->
  get_kv key d = (inr None, d).
Proof.
  intros Ht Hcols Hnone. rewrite (get_kv_run key d t Ht Hcols).
  destruct (List.filter _ (trows t)) as [|r rs] eqn:E; [reflexivity|].
  assert (Hr : In r (List.filter (fun r => sql_eqb (row_get r "key") (VText key))
                                 (trows t))) by (rewrite E; now left).
  apply filter_In in Hr as [Hr Hhit].
  assert (existsb (fun r => sql_eqb (row_get r "key") (VText key)) (trows t) = true)
    by (apply existsb_exists; eauto).
  congruence.
Qed.

Lemma get_kv_missing_key_witness :
  sqlite_manager.get_kv "cursor:BTCUSDT" sample_kv_store = (inr None, sample_kv_store).
Proof.
  apply (get_kv_missing_key "cursor:BTCUSDT" sample_kv_store
           {| tcols := ["key"; "value"; "updated_at"]; tkey := ["key"];
              trows := [row_of_dict [("key", VText "cursor:ETHUSDT");
                                     ("value", VText "1699999000");
                                     ("updated_at", VInt 1699999100)]] |}).
  - vm_compute. reflexivity.
  - reflexivity.
  - vm_compute. reflexivity.
Defined.

Lemma text_keys_differ (k k' : string) :
  k <> k' -> sql_eqb (VText k) (VText k') = false.
Proof.
  intros Hne. destruct (sql_eqb (VText k) (VText k')) eqn:E; [|reflexivity].
  apply sql_eqb_text in E. congruence.
Qed.

Lemma name_differs (a b k : string) :
  same_name a b = false -> same_name a k = true -> same_name b k = false.
Proof.
  unfold same_name. intros Hab Hak. apply String.eqb_eq in Hak.
  rewrite Hak in Hab. now rewrite String.eqb_sym.
Qed.

Lemma same_name_differ (a b k k' : string) :
  same_name a b = false -> same_name a k = true -> same_name b k' = true -> k <> k'.
Proof.
  intros Hab Hak Hbk ->. now rewrite (name_differs a b k' Hab Hak) in Hbk.
Qed.

(** Rows found under another key are the same before and after a write,
    however the table spells the names of its columns. *)
Lemma other_key_hits (key key' value : string) (updated_at : Z)
    (index : list string) (k v u : string) (rs : list row) :
  key' <> key ->
  same_name "key" k = true -> same_name "value" v = true ->
  same_name "updated_at" u = true ->
  same_names ["key"] index = true ->
  List.filter (fun r => sql_eqb (row_get r k) (VText key'))
              (upsert_rows index (DoUpdate [v; u])
                 (list_to_map (zip [k; v; u]
                                   [VText key; VText value; VInt updated_at])) rs)
  = List.filter (fun r => sql_eqb (row_get r k) (VText key')) rs.
Proof.
  intros Hne Hk Hv Hu Hindex.
  set (e := list_to_map (zip [k; v; u] [VText key; VText value; VInt updated_at]) : row).
  assert (Hkv : k <> v) by now apply (same_name_differ "key" "value").
  assert (Hku : k <> u) by now apply (same_name_differ "key" "updated_at").
  assert (Ek : row_get e k = VText key).
  { unfold row_get, e. cbn [zip zip_with list_to_map foldr uncurry fst snd].
    now rewrite lookup_insert_eq. }
  assert (Eother : forall c, same_name "key" c = true -> c <> k -> row_get e c = VNull).
  { intros c Hc Hck. unfold row_get, e.
    cbn [zip zip_with list_to_map foldr uncurry fst snd].
    rewrite lookup_insert_ne by congruence.
    rewrite lookup_insert_ne
      by (apply not_eq_sym; now apply (same_name_differ "key" "value")).
    rewrite lookup_insert_ne
      by (apply not_eq_sym; now apply (same_name_differ "key" "updated_at")).
    now rewrite lookup_empty. }
  unfold same_names in Hindex. apply andb_prop in Hindex as [Hsome Hall].
  cbn [forallb] in Hsome. rewrite andb_true_r in Hsome.
  apply existsb_exists in Hsome as (c0 & Hc0 & _).
  rewrite forallb_forall in Hall.
  assert (Hc : forall r, key_conflict index r e = true ->
                         row_get r k = VText key).
  { intros r Hr. unfold key_conflict in Hr. rewrite forallb_forall in Hr.
    assert (Hall' : forall c, In c index -> c = k).
    { intros c Hin. destruct (String.eqb_spec c k) as [|Hck]; [assumption|].
      specialize (Hr c Hin). specialize (Hall c Hin).
      cbn [existsb] in Hall. rewrite orb_false_r in Hall.
      unfold same_name in Hall. rewrite String.eqb_sym in Hall.
      rewrite (Eother c Hall Hck) in Hr.
      unfold sql_eqb in Hr. cbn [is_null negb] in Hr.
      now rewrite andb_false_r in Hr. }
    specialize (Hr c0 Hc0). rewrite (Hall' c0 Hc0), Ek in Hr.
    now apply sql_eqb_text in Hr. }
  induction rs as [|r rs IH]; cbn [upsert_rows List.filter].
  - fold e. now rewrite Ek, (text_keys_differ key key') by congruence.
  - fold e in IH |- *. destruct (key_conflict index r e) eqn:E;
      cbn [List.filter resolve].
    + rewrite apply_update_get.
      assert (Hmem : mem k [v; u] = false).
      { apply mem_false. simpl. intuition congruence. }
      rewrite Hmem, (Hc r E).
      now rewrite (text_keys_differ key key') by congruence.
    + now rewrite IH.
Qed.

Lemma resolve_three (cols : list string) (a b c : string) (ks : list string) :
  resolve_columns cols [a; b; c] = Some ks ->
  exists x y z, ks = [x; y; z]
    /\ resolve_column cols a = Some x /\ resolve_column cols b = Some y
    /\ resolve_column cols c = Some z.
Proof.
  cbn [resolve_columns].
  destruct (resolve_column cols a) as [x|]; [|discriminate].
  destruct (resolve_column cols b) as [y|]; [|discriminate].
  destruct (resolve_column cols c) as [z|]; [|discriminate].
  intros [= <-]. eauto 10.
Qed.

(** [set_kv] for one key does not change what [get_kv] returns for
    another, whether the write succeeds or fails. *)
Theorem set_kv_other_key (key key' value : string) (updated_at : Z) (d : db) :
  key' <> key ->
  outcome (get_kv key') (exec (set_kv key value updated_at) d)
  = outcome (get_kv key') d.
Proof.
  intros Hne. unfold exec, set_kv, _execute.
  match goal with |- context [exec_upsert ?st ?ps d] =>
    destruct (exec_upsert_cases st ps d)
      as [(e & Hrun & _)|(t & columns & action & Ht & Hcols & Hact & Hkey & Hrun)];
      rewrite Hrun; cbn [snd]; [reflexivity|]
  end.
  cbn [u_table u_conflict u_action u_columns] in *.
  apply resolve_three in Hcols as (k & v & u & -> & Rk & Rv & Ru).
  cbn [resolve_action resolve_columns] in Hact. rewrite Rv, Ru in Hact.
  injection Hact as <-.
  unfold outcome, get_kv, _query, bind, exec_select.
  cbn [s_table s_columns s_where s_order s_limit].
  rewrite lookup_insert_eq, Ht. cbn [set_rows tcols trows].
  cbn [resolve_columns resolve_conds resolve_cond]. rewrite Rk, Rv, Ru.
  rewrite (filter_ext _ (fun r => sql_eqb (row_get r k) (VText key')))
    by (intros r; cbn [forallb eval_cond]; apply andb_true_r).
  rewrite (filter_ext (fun r => forallb (eval_cond r) [CEq k (VText key')])
                      (fun r => sql_eqb (row_get r k) (VText key')))
    by (intros r; cbn [forallb eval_cond]; apply andb_true_r).
  apply resolve_column_spec in Rk as [_ Rk].
  apply resolve_column_spec in Rv as [_ Rv].
  apply resolve_column_spec in Ru as [_ Ru].
  now rewrite (other_key_hits key key' value updated_at (tkey t) k v u (trows t)
                 Hne Rk Rv Ru Hkey).
Qed.

Lemma set_kv_other_key_witness :
  outcome (sqlite_manager.get_kv "cursor:ETHUSDT")
          (exec (sqlite_manager.set_kv "cursor:BTCUSDT" "1700000000" 1700000100)
                sample_kv_store)
  = outcome (sqlite_manager.get_kv "cursor:ETHUSDT") sample_kv_store.
Proof.
  apply (set_kv_other_key "cursor:BTCUSDT" "cursor:ETHUSDT" "1700000000" 1700000100
           sample_kv_store).
  discriminate.
Defined.

End MoreWatermark.

(** ** Writes keyed by [id], further *)

Section MoreById.

Import sqlite_manager.

(** Each of the three writes is the shared tail behind a check for [id]. *)
Lemma write_by_id_unfold (tbl : string) (write : dict -> M unit) (p : dict) :
  In (tbl, write) writes_by_id ->
  (dict_contains p "id" = true -> write p = build_and_execute tbl p ["id"] None)
  /\ (dict_contains p "id" = false ->
      forall d, exists msg, write p d = (inl (ValueError msg), d)).
Proof.
  intros Hw. simpl in Hw.
  destruct Hw as [E|[E|[E|[]]]]; injection E as <- <-; split; intros Hid.
  - unfold insert_event. now rewrite Hid.
  - intros d. unfold insert_event. rewrite Hid. simpl. unfold raise. eauto.
  - unfold upsert_rule. now rewrite Hid.
  - intros d. unfold upsert_rule. rewrite Hid. simpl. unfold raise. eauto.
  - unfold upsert_token. now rewrite Hid.
  - intros d. unfold upsert_token. rewrite Hid. simpl. unfold raise. eauto.
Qed.

(** [insert_event], [upsert_rule] and [upsert_token] raise a [ValueError]
    exactly when the payload has no key [id] (a payload whose [id] is [None]
    passes), and whenever they fail the store is left as it was. *)
Theorem write_by_id_validation (tbl : string) (write : dict -> M unit)
    (p : dict) (d : db) :
  In (tbl, write) writes_by_id ->
  ((exists e, outcome (write p) d = inl e /\ is_ValueError e = true)
   <-> dict_contains p "id" = false)
  /\ (forall e, outcome (write p) d = inl e -> exec (write p) d = d).
Proof.
  intros Hw. destruct (write_by_id_unfold tbl write p Hw) as [Hyes Hno].
  unfold outcome, exec. destruct (dict_contains p "id") eqn:Hid.
  - rewrite (Hyes eq_refl).
    destruct (build_and_execute_outcome tbl p ["id"] None d
                (contains_nonempty p "id" Hid)) as [[d' E]|[e [E He]]];
      rewrite E; cbn [fst snd].
    + split; [split; [intros (e & He & _) | ]; discriminate | discriminate].
    + split; [|reflexivity]. split; [|discriminate].
      intros (e' & He' & Hv). injection He' as <-. congruence.
  - destruct (Hno eq_refl d) as [msg E]. rewrite E. cbn [fst snd].
    split; [|reflexivity]. split; [reflexivity|]. eauto.
Qed.

Lemma write_by_id_validation_witness :
  ((exists e, outcome (sqlite_manager.upsert_rule [("symbol", VText "BTCUSDT")])
                      empty_store = inl e
              /\ is_ValueError e = true)
   <-> dict_contains [("symbol", VText "BTCUSDT")] "id" = false)
  /\ (forall e, outcome (sqlite_manager.upsert_rule [("symbol", VText "BTCUSDT")])
                        empty_store = inl e ->
                exec (sqlite_manager.upsert_rule [("symbol", VText "BTCUSDT")])
                     empty_store = empty_store).
Proof.
  apply (write_by_id_validation "price_alert_rules" sqlite_manager.upsert_rule
           [("symbol", VText "BTCUSDT")] empty_store).
  simpl. right. now left.
Defined.





End MoreById.

(** ** Listings and their order *)

Section Listings.

Import sqlite_manager.

Lemma value_compare_eq_l (a b c : value) :
  value_compare a b = Eq -> value_compare a c = value_compare b c.
Proof.
  destruct a, b, c; unfold value_compare; simpl; try congruence;
    try (intros H; apply Qeq_alt in H; now rewrite H);
    intros H; apply string_compare_eq in H; now subst.
Qed.

Lemma value_compare_lt_trans (a b c : value) :
  value_compare a b = Lt -> value_compare b c = Lt -> value_compare a c = Lt.
Proof.
  destruct a, b, c; unfold value_compare; simpl; try congruence;
    try (rewrite <- !Qlt_alt; apply Qlt_trans);
    apply string_compare_lt_trans.
Qed.

Lemma order_compare_antisym (cols : list string) (a b : row) :
  order_compare cols b a = CompOpp (order_compare cols a b).
Proof.
  induction cols as [|c cols IH]; simpl; [reflexivity|].
  rewrite (value_compare_antisym (row_get a c) (row_get b c)).
  destruct (value_compare (row_get a c) (row_get b c)); simpl; auto.
Qed.

Lemma order_compare_eq_l (cols : list string) (a b x : row) :
  order_compare cols a b = Eq -> order_compare cols a x = order_compare cols b x.
Proof.
  induction cols as [|c cols IH]; simpl; [reflexivity|].
  destruct (value_compare (row_get a c) (row_get b c)) eqn:E; try discriminate.
  intros H. rewrite (value_compare_eq_l _ _ (row_get x c) E).
  destruct (value_compare (row_get b c) (row_get x c)); auto.
Qed.

Lemma order_compare_lt_trans (cols : list string) (a b x : row) :
  order_compare cols a b = Lt -> order_compare cols b x = Lt ->
  order_compare cols a x = Lt.
Proof.
  induction cols as [|c cols IH]; simpl; [discriminate|].
  destruct (value_compare (row_get a c) (row_get b c)) eqn:E1; try discriminate;
    destruct (value_compare (row_get b c) (row_get x c)) eqn:E2; try discriminate;
    intros H1 H2.
  - rewrite (value_compare_eq_l _ _ _ E1), E2. auto.
  - now rewrite (value_compare_eq_l _ _ _ E1), E2.
  - assert (E : value_compare (row_get a c) (row_get x c) = Lt).
    { pose proof (value_compare_antisym (row_get b c) (row_get x c)) as Hs.
      rewrite E2 in Hs. simpl in Hs.
      pose proof (value_compare_eq_l _ _ (row_get a c) Hs) as Hx.
      rewrite (value_compare_antisym (row_get a c) (row_get x c)) in Hx.
      rewrite (value_compare_antisym (row_get a c) (row_get b c)), E1 in Hx.
      destruct (value_compare (row_get a c) (row_get x c)); simpl in Hx; congruence. }
    now rewrite E.
  - now rewrite (value_compare_lt_trans _ _ _ E1 E2).
Qed.

Lemma order_leb_total (cols : list string) (a b : row) :
  order_leb cols a b = false -> order_leb cols b a = true.
Proof.
  unfold order_leb. rewrite (order_compare_antisym cols a b).
  destruct (order_compare cols a b); simpl; congruence.
Qed.

Lemma order_leb_trans (cols : list string) (a b x : row) :
  order_leb cols a b = true -> order_leb cols b x = true -> order_leb cols a x = true.
Proof.
  unfold order_leb.
  destruct (order_compare cols a b) eqn:E1; try discriminate;
    destruct (order_compare cols b x) eqn:E2; try discriminate; intros _ _.
  - now rewrite (order_compare_eq_l _ _ _ _ E1), E2.
  - now rewrite (order_compare_eq_l _ _ _ _ E1), E2.
  - pose proof (order_compare_antisym cols b x) as Hs. rewrite E2 in Hs. simpl in Hs.
    pose proof (order_compare_eq_l cols _ _ a Hs) as Hx.
    rewrite (order_compare_antisym cols a x) in Hx.
    rewrite (order_compare_antisym cols a b), E1 in Hx.
    destruct (order_compare cols a x); simpl in Hx; congruence.
  - now rewrite (order_compare_lt_trans _ _ _ _ E1 E2).
Qed.

Lemma insert_sorted_ordered (cols : list string) (r : row) (rs : list row) :
  StronglySorted (ordered cols) rs ->
  StronglySorted (ordered cols) (insert_sorted cols r rs).
Proof.
  induction 1 as [|r' rs Hs IH Hall]; simpl.
  - constructor; constructor.
  - destruct (order_leb cols r r') eqn:E.
    + constructor; [now constructor|].
      constructor; [exact E|].
      apply List.Forall_forall. intros x Hx. rewrite List.Forall_forall in Hall.
      exact (order_leb_trans _ _ _ _ E (Hall x Hx)).
    + constructor; [exact IH|].
      apply List.Forall_forall. intros x Hx. apply insert_sorted_In in Hx as [->|Hx].
      * now apply order_leb_total.
      * rewrite List.Forall_forall in Hall. now apply Hall.
Qed.

Lemma sort_rows_ordered (cols : list string) (rs : list row) :
  StronglySorted (ordered cols) (sort_rows cols rs).
Proof.
  unfold sort_rows. induction rs as [|r rs IH]; simpl; [constructor|].
  now apply insert_sorted_ordered.
Qed.

Lemma insert_sorted_perm (cols : list string) (r : row) (rs : list row) :
  Permutation (insert_sorted cols r rs) (r :: rs).
Proof.
  induction rs as [|r' rs IH]; cbn [insert_sorted]; [reflexivity|].
  destruct (order_leb cols r r'); [reflexivity|].
  rewrite IH. apply perm_swap.
Qed.

(** Sorting neither drops nor repeats a row. *)
Lemma sort_rows_perm (cols : list string) (rs : list row) :
  Permutation (sort_rows cols rs) rs.
Proof.
  unfold sort_rows. induction rs as [|r rs IH]; cbn [foldr]; [reflexivity|].
  now rewrite insert_sorted_perm, IH.
Qed.

Lemma list_tokens_run (enabled : option bool) (d : db) (t : table) :
  d !! "token_registry" = Some t ->
  subset_of ["enabled"; "symbol"] (tcols t) = true ->
  list_tokens enabled d
  = (inr (map (row_to_dict (tcols t))
              (sort_rows ["symbol"]
                 (List.filter
                    (fun r => match enabled with
                              | Some flag => sql_eqb (row_get r "enabled") (bool_param flag)
                              | None => true
                              end) (trows t)))), d).
Proof.
  intros Ht Hcols. unfold list_tokens, _query.
  match goal with |- exec_select ?st d = _ =>
    rewrite (exec_select_ok st d t Ht)
  end; [| | reflexivity].
  - unfold limited, selected, select_columns.
    cbn [s_limit s_order s_where s_columns]. do 4 f_equal.
    apply filter_ext. intros r. destruct enabled; cbn [forallb eval_cond];
      [apply andb_true_r | reflexivity].
  - apply subset_of_In. rewrite subset_of_In in Hcols.
    cbn [select_columns s_columns s_where s_order].
    intros x Hx. apply in_app_or in Hx as [Hx|Hx]; [exact Hx|].
    apply Hcols. destruct enabled; simpl in Hx |- *; tauto.
Qed.

(** [list_tokens] returns the rows of the registry ordered by [symbol]; with
    [enabled] given it returns exactly the rows whose [enabled] column equals
    1 (for [True]) or 0 (for [False]), and without it all rows: every such
    row is returned, every record returned is such a row, and none is dropped
    or repeated. *)
Theorem list_tokens_result (enabled : option bool) (d : db) (t : table) :
  d !! "token_registry" = Some t ->
  subset_of ["enabled"; "symbol"] (tcols t) = true ->
  exists tokens,
    list_tokens enabled d = (inr tokens, d)
    /\ StronglySorted
         (fun a b => value_leb (field a "symbol") (field b "symbol") = true) tokens
    /\ (forall flag, enabled = Some flag ->
          Forall (fun token => sql_eqb (field token "enabled") (bool_param flag) = true)
                 tokens)
    /\ (forall r, In r (trows t) ->
          (forall flag, enabled = Some flag ->
             sql_eqb (row_get r "enabled") (bool_param flag) = true) ->
          In (row_to_dict (tcols t) r) tokens)
    /\ (enabled = None -> length tokens = length (trows t))
    /\ (forall token, In token tokens ->
          exists r, In r (trows t) /\ token = row_to_dict (tcols t) r
                    /\ (forall flag, enabled = Some flag ->
                           sql_eqb (row_get r "enabled") (bool_param flag) = true))
    /\ (exists rows,
          tokens = map (row_to_dict (tcols t)) rows
          /\ Permutation rows
               (List.filter
                  (fun r => match enabled with
                            | Some flag => sql_eqb (row_get r "enabled") (bool_param flag)
                            | None => true
                            end) (trows t))).
Proof.
  intros Ht Hcols.
  assert (Hen : mem "enabled" (tcols t) = true).
  { apply mem_In. rewrite subset_of_In in Hcols. apply Hcols. simpl. auto. }
  assert (Hsym : mem "symbol" (tcols t) = true).
  { apply mem_In. rewrite subset_of_In in Hcols. apply Hcols. simpl. auto. }
  eexists. split; [exact (list_tokens_run enabled d t Ht Hcols)|].
  repeat split.
  - apply (StronglySorted_map _ (ascending "symbol")).
    + intros a b Hab. now rewrite !(field_row_to_dict _ _ _ Hsym).
    + apply sort_rows_ascending.
  - intros flag ->. apply List.Forall_forall. intros token Hin.
    apply in_map_iff in Hin as (r & <- & Hr).
    apply sort_rows_In, filter_In in Hr as [_ Hr].
    now rewrite (field_row_to_dict _ _ _ Hen).
  - intros r Hr Hflag. apply in_map, sort_rows_In, filter_In.
    split; [exact Hr|]. destruct enabled as [flag|]; [now apply Hflag | reflexivity].
  - intros ->. rewrite length_map, sort_rows_length.
    f_equal. apply forallb_filter_id. now apply forallb_forall.
  - intros token Hin. apply in_map_iff in Hin as (r & <- & Hr).
    apply sort_rows_In, filter_In in Hr as [Hr Hpass].
    exists r. repeat split; [exact Hr|]. now intros flag ->.
  - eexists. split; [reflexivity | apply sort_rows_perm].
Qed.

Lemma list_tokens_result_witness :
  exists tokens,
    sqlite_manager.list_tokens (Some true) sample_market_store
    = (inr tokens, sample_market_store)
    /\ StronglySorted
         (fun a b => value_leb (field a "symbol") (field b "symbol") = true) tokens
    /\ (forall flag, Some true = Some flag ->
          Forall (fun token => sql_eqb (field token "enabled")
                                       (sqlite_manager.bool_param flag) = true)
                 tokens)
    /\ (forall r, In r (trows sample_markets) ->
          (forall flag, Some true = Some flag ->
             sql_eqb (row_get r "enabled") (sqlite_manager.bool_param flag) = true) ->
          In (row_to_dict (tcols sample_markets) r) tokens)
    /\ (Some true = None -> length tokens = length (trows sample_markets))
    /\ (forall token, In token tokens ->
          exists r, In r (trows sample_markets)
                    /\ token = row_to_dict (tcols sample_markets) r
                    /\ (forall flag, Some true = Some flag ->
                           sql_eqb (row_get r "enabled") (sqlite_manager.bool_param flag)
                           = true))
    /\ (exists rows,
          tokens = map (row_to_dict (tcols sample_markets)) rows
          /\ Permutation rows
               (List.filter
                  (fun r => sql_eqb (row_get r "enabled") (sqlite_manager.bool_param true))
                  (trows sample_markets))).
Proof.
  apply (list_tokens_result (Some true) sample_market_store sample_markets).
  - vm_compute. reflexivity.
  - reflexivity.
Defined.

Lemma by_symbol_then_level_rows (cols : list string) (a b : row) :
  mem "symbol" cols = true -> mem "level" cols = true ->
  ordered ["symbol"; "level"] a b ->
  by_symbol_then_level (row_to_dict cols a) (row_to_dict cols b).
Proof.
  intros Hs Hl. unfold ordered, order_leb, by_symbol_then_level, value_leb.
  rewrite !(field_row_to_dict _ _ _ Hs), !(field_row_to_dict _ _ _ Hl). simpl.
  destruct (value_compare (row_get a "symbol") (row_get b "symbol"));
    [|trivial|discriminate].
  now destruct (value_compare (row_get a "level") (row_get b "level")).
Qed.

Lemma list_rules_run (symbol : option string) (enabled : option bool) (d : db) (t : table) :
  d !! "price_alert_rules" = Some t ->
  subset_of ["symbol"; "level"; "enabled"] (tcols t) = true ->
  list_rules symbol enabled d
  = (inr (map (row_to_dict (tcols t))
              (sort_rows ["symbol"; "level"]
                 (List.filter (fun r => forallb (eval_cond r)
                                                (rule_conditions symbol enabled))
                              (trows t)))), d).
Proof.
  intros Ht Hcols. unfold list_rules, _query.
  match goal with |- exec_select ?st d = _ =>
    rewrite (exec_select_ok st d t Ht)
  end; [| | reflexivity].
  - unfold limited, selected, select_columns, rule_conditions.
    cbn [s_limit s_order s_where s_columns].
    destruct symbol, enabled; reflexivity.
  - apply subset_of_In. rewrite subset_of_In in Hcols.
    cbn [select_columns s_columns s_where s_order].
    intros x Hx. apply in_app_or in Hx as [Hx|Hx]; [exact Hx|].
    apply Hcols. destruct symbol, enabled; simpl in Hx |- *; tauto.
Qed.

Lemma rule_conditions_hold (symbol : option string) (enabled : option bool) (r : row) :
  forallb (eval_cond r) (rule_conditions symbol enabled) = true
  <-> (forall s, symbol = Some s -> row_get r "symbol" = VText s)
      /\ (forall flag, enabled = Some flag ->
            sql_eqb (row_get r "enabled") (bool_param flag) = true).
Proof.
  assert (Hsym : forall s, sql_eqb (row_get r "symbol") (VText s) = true
                           <-> row_get r "symbol" = VText s).
  { intros s. split; [apply sql_eqb_text|]. intros ->. now apply sql_eqb_refl. }
  unfold rule_conditions.
  destruct symbol as [s|], enabled as [flag|]; cbn [app forallb eval_cond];
    rewrite ?andb_true_iff, ?Hsym; split.
  - intros (H1 & H2 & _). split; [now intros ? [= <-] | now intros ? [= <-]].
  - intros [H1 H2]. auto.
  - intros (H1 & _). split; [now intros ? [= <-] | discriminate].
  - intros [H1 _]. auto.
  - intros (H1 & _). split; [discriminate | now intros ? [= <-]].
  - intros [_ H2]. auto.
  - intros _. split; discriminate.
  - reflexivity.
Qed.

(** [list_rules] returns exactly the rules that pass the filters given (the
    symbol asked for; [enabled] equal to 1 or 0), ordered by [symbol] and,
    within a symbol, by [level]: every such rule is returned, every record
    returned is such a rule of the table, and none is dropped or repeated. *)
Theorem list_rules_result (symbol : option string) (enabled : option bool)
    (d : db) (t : table) :
  d !! "price_alert_rules" = Some t ->
  subset_of ["symbol"; "level"; "enabled"] (tcols t) = true ->
  exists rules,
    list_rules symbol enabled d = (inr rules, d)
    /\ StronglySorted by_symbol_then_level rules
    /\ (forall s, symbol = Some s ->
          Forall (fun rule => field rule "symbol" = VText s) rules)
    /\ (forall flag, enabled = Some flag ->
          Forall (fun rule => sql_eqb (field rule "enabled") (bool_param flag) = true)
                 rules)
    /\ (forall r, In r (trows t) ->
          (forall s, symbol = Some s -> row_get r "symbol" = VText s) ->
          (forall flag, enabled = Some flag ->
             sql_eqb (row_get r "enabled") (bool_param flag) = true) ->
          In (row_to_dict (tcols t) r) rules)
    /\ (forall rule, In rule rules ->
          exists r, In r (trows t) /\ rule = row_to_dict (tcols t) r
                    /\ (forall s, symbol = Some s -> row_get r "symbol" = VText s)
                    /\ (forall flag, enabled = Some flag ->
                           sql_eqb (row_get r "enabled") (bool_param flag) = true))
    /\ (exists rows,
          rules = map (row_to_dict (tcols t)) rows
          /\ Permutation rows
               (List.filter (fun r => forallb (eval_cond r)
                                              (rule_conditions symbol enabled))
                            (trows t))).
Proof.
  intros Ht Hcols.
  assert (Hin : forall c, In c ["symbol"; "level"; "enabled"] -> mem c (tcols t) = true).
  { intros c Hc. apply mem_In. rewrite subset_of_In in Hcols. now apply Hcols. }
  pose proof (Hin "symbol" ltac:(simpl; tauto)) as Hs.
  pose proof (Hin "level" ltac:(simpl; tauto)) as Hl.
  pose proof (Hin "enabled" ltac:(simpl; tauto)) as He.
  eexists. split; [exact (list_rules_run symbol enabled d t Ht Hcols)|].
  repeat split.
  - apply (StronglySorted_map _ (ordered ["symbol"; "level"])).
    + intros a b. now apply by_symbol_then_level_rows.
    + apply sort_rows_ordered.
  - intros s Hsome. apply List.Forall_forall. intros rule Hrule.
    apply in_map_iff in Hrule as (r & <- & Hr).
    apply sort_rows_In, filter_In in Hr as [_ Hr].
    apply rule_conditions_hold in Hr as [Hr _].
    rewrite (field_row_to_dict _ _ _ Hs). now apply Hr.
  - intros flag Hsome. apply List.Forall_forall. intros rule Hrule.
    apply in_map_iff in Hrule as (r & <- & Hr).
    apply sort_rows_In, filter_In in Hr as [_ Hr].
    apply rule_conditions_hold in Hr as [_ Hr].
    rewrite (field_row_to_dict _ _ _ He). now apply Hr.
  - intros r Hr Hsym Hflag. apply in_map, sort_rows_In, filter_In.
    split; [exact Hr|]. apply rule_conditions_hold. auto.
  - intros rule Hin'. apply in_map_iff in Hin' as (r & <- & Hr).
    apply sort_rows_In, filter_In in Hr as [Hr Hpass].
    apply rule_conditions_hold in Hpass as [H1 H2].
    exists r. auto.
  - eexists. split; [reflexivity | apply sort_rows_perm].
Qed.

Lemma list_rules_result_witness :
  exists rules,
    sqlite_manager.list_rules (Some "BTCUSDT") None sample_rules_store
    = (inr rules, sample_rules_store)
    /\ StronglySorted by_symbol_then_level rules
    /\ (forall s, Some "BTCUSDT" = Some s ->
          Forall (fun rule => field rule "symbol" = VText s) rules)
    /\ (forall flag, None = Some flag ->
          Forall (fun rule => sql_eqb (field rule "enabled")
                                      (sqlite_manager.bool_param flag) = true)
                 rules)
    /\ (forall r,
          In r [row_of_dict [("id", VText "r3"); ("symbol", VText "ETHUSDT");
                             ("level", VInt 3000); ("enabled", VInt 1)];
                row_of_dict [("id", VText "r2"); ("symbol", VText "BTCUSDT");
                             ("level", VInt 70000); ("enabled", VInt 1)];
                row_of_dict [("id", VText "r1"); ("symbol", VText "BTCUSDT");
                             ("level", VInt 50000); ("enabled", VInt 0)]] ->
          (forall s, Some "BTCUSDT" = Some s -> row_get r "symbol" = VText s) ->
          (forall flag, None = Some flag ->
             sql_eqb (row_get r "enabled") (sqlite_manager.bool_param flag) = true) ->
          In (row_to_dict ["id"; "symbol"; "level"; "enabled"] r) rules)
    /\ (forall rule, In rule rules ->
          exists r,
            In r [row_of_dict [("id", VText "r3"); ("symbol", VText "ETHUSDT");
                               ("level", VInt 3000); ("enabled", VInt 1)];
                  row_of_dict [("id", VText "r2"); ("symbol", VText "BTCUSDT");
                               ("level", VInt 70000); ("enabled", VInt 1)];
                  row_of_dict [("id", VText "r1"); ("symbol", VText "BTCUSDT");
                               ("level", VInt 50000); ("enabled", VInt 0)]]
            /\ rule = row_to_dict ["id"; "symbol"; "level"; "enabled"] r
            /\ (forall s, Some "BTCUSDT" = Some s -> row_get r "symbol" = VText s)
            /\ (forall flag, None = Some flag ->
                   sql_eqb (row_get r "enabled") (sqlite_manager.bool_param flag) = true))
    /\ (exists rows,
          rules = map (row_to_dict ["id"; "symbol"; "level"; "enabled"]) rows
          /\ Permutation rows
               (List.filter
                  (fun r => forallb (eval_cond r) (rule_conditions (Some "BTCUSDT") None))
                  [row_of_dict [("id", VText "r3"); ("symbol", VText "ETHUSDT");
                                ("level", VInt 3000); ("enabled", VInt 1)];
                   row_of_dict [("id", VText "r2"); ("symbol", VText "BTCUSDT");
                                ("level", VInt 70000); ("enabled", VInt 1)];
                   row_of_dict [("id", VText "r1"); ("symbol", VText "BTCUSDT");
                                ("level", VInt 50000); ("enabled", VInt 0)]])).
Proof.
  apply (list_rules_result (Some "BTCUSDT") None sample_rules_store
           {| tcols := ["id"; "symbol"; "level"; "enabled"]; tkey := ["id"];
              trows := [row_of_dict [("id", VText "r3"); ("symbol", VText "ETHUSDT");
                                     ("level", VInt 3000); ("enabled", VInt 1)];
                        row_of_dict [("id", VText "r2"); ("symbol", VText "BTCUSDT");
                                     ("level", VInt 70000); ("enabled", VInt 1)];
                        row_of_dict [("id", VText "r1"); ("symbol", VText "BTCUSDT");
                                     ("level", VInt 50000); ("enabled", VInt 0)]] |}).
  - vm_compute. reflexivity.
  - reflexivity.
Defined.

(** The listing of the sample rules: by symbol, then by level. *)
Example list_rules_order :
  match outcome (sqlite_manager.list_rules None None) sample_rules_store with
  | inr rules => map (fun rule => field rule "id") rules
  | inl _ => []
  end = [VText "r1"; VText "r2"; VText "r3"].
Proof. vm_compute. reflexivity. Qed.

End Listings.

(** ** The ingestion cycle, further *)

Section MoreIngestion.

Import sqlite_manager dex_api.

Lemma leaves_ret {A} (tbl : string) (a : A) : leaves_table tbl (ret a).
Proof. intros d. reflexivity. Qed.

Lemma leaves_raise {A} (tbl : string) (e : exn) : leaves_table tbl (@raise A e).
Proof. intros d. reflexivity. Qed.

Lemma leaves_lift {A} (tbl : string) (r : exn + A) : leaves_table tbl (lift r).
Proof. intros d. reflexivity. Qed.

Lemma leaves_bind {A B} (tbl : string) (m : M A) (k : A -> M B) :
  leaves_table tbl m -> (forall a, leaves_table tbl (k a)) ->
  leaves_table tbl (bind m k).
Proof.
  intros Hm Hk d. unfold bind. specialize (Hm d).
  destruct (m d) as [[e|a] d']; cbn [snd] in *; [exact Hm|].
  now rewrite (Hk a d').
Qed.

Lemma leaves_exec_select (tbl : string) (st : select_stmt) :
  leaves_table tbl (exec_select st).
Proof. intros d. now rewrite exec_select_state. Qed.

Lemma leaves_upsert_bar (tbl tbl' : string) (bar : dict) :
  tbl' <> tbl -> leaves_table tbl' (upsert_bar tbl bar).
Proof.
  intros Hne d.
  destruct (upsert_bar_cases tbl bar d)
    as [[e Hrun]|(t & columns & action & _ & _ & _ & _ & Hrun)];
    rewrite Hrun; cbn [snd]; [reflexivity|].
  now apply lookup_insert_ne.
Qed.

Lemma leaves_upsert_bars (tbl : string) (token : dict) (bars : list dict)
    (stop : option exn) :
  tbl <> "bars_1m" ->
  forall inserted, leaves_table tbl (upsert_bars token bars stop inserted).
Proof.
  intros Hne. induction bars as [|bar bars IH]; intros inserted; cbn [upsert_bars].
  - destruct stop; [apply leaves_raise | apply leaves_ret].
  - apply leaves_bind; [apply leaves_lift|]. intros payload.
    apply leaves_bind; [now apply leaves_upsert_bar|]. intros _. apply IH.
Qed.

Lemma leaves_sync_tokens (tbl : string) (_ADAPTERS : registry) (since_ts : option Z)
    (tokens : list dict) :
  tbl <> "bars_1m" ->
  forall inserted, leaves_table tbl (sync_tokens _ADAPTERS since_ts tokens inserted).
Proof.
  intros Hne. induction tokens as [|token tokens IH]; intros inserted; cbn [sync_tokens].
  - apply leaves_ret.
  - apply leaves_bind; [apply leaves_lift|]. intros exchange.
    destruct (adapters_get _ADAPTERS exchange) as [adapter|]; [|apply IH].
    destruct (adapter_fetch_1m_bar adapter _ _ _ since_ts) as [exc|bars].
    + destruct (is_Exception exc); [|apply leaves_raise].
      apply leaves_bind; [apply leaves_lift|]. intros _. apply IH.
    + apply leaves_bind; [now apply leaves_upsert_bars|]. intros inserted'. apply IH.
Qed.

(** An ingestion cycle writes to [bars_1m] and to nothing else: whatever
    the connectors do and however the cycle ends, every other table (the
    token registry, the other timeframes, events, rules, watermarks) is left
    as it was. *)
Theorem sync_writes_bars_1m_only (_ADAPTERS : registry) (since_ts : option Z)
    (d : db) (tbl : string) :
  tbl <> "bars_1m" ->
  exec (sync_registered_tokens _ADAPTERS since_ts) d !! tbl = d !! tbl.
Proof.
  intros Hne. unfold exec, sync_registered_tokens.
  apply (leaves_bind tbl); [apply leaves_exec_select|].
  intros tokens. now apply leaves_sync_tokens.
Qed.

Lemma sync_writes_bars_1m_only_witness :
  exec (dex_api.sync_registered_tokens sample_adapters None) sample_market_store
    !! "token_registry"
  = sample_market_store !! "token_registry".
Proof.
  apply (sync_writes_bars_1m_only sample_adapters None sample_market_store
           "token_registry").
  discriminate.
Defined.

Lemma payload_value_dict_set (p : dict) (k : string) (v : value) (c : string) :
  payload_value (dict_set p k v) c = if String.eqb k c then v else payload_value p c.
Proof.
  unfold payload_value, dict_get_default.
  induction p as [|[k' v'] p IH]; simpl.
  - now destruct (String.eqb k c).
  - destruct (String.eqb_spec k' k) as [->|Hne]; simpl.
    + now destruct (String.eqb k c).
    + destruct (String.eqb_spec k' c) as [->|Hne'].
      * destruct (String.eqb_spec k c) as [->|_]; [congruence | reflexivity].
      * exact IH.
Qed.

(** The identity of the payload the cycle writes for a bar of a market. *)
Lemma tagged_identity (token bar : dict) :
  payload_identity bar_identity (tagged token bar)
  = [VText "dex"; payload_value token "exchange";
     dict_get_default token "chain" (VText ""); payload_value token "symbol";
     payload_value bar "close_ts"].
Proof.
  unfold payload_identity, tagged. cbn [map bar_identity].
  now rewrite !payload_value_dict_set.
Qed.

Lemma listed_token_get (t : table) (token : dict) (c : string) (dflt : value) :
  In token (listed_tokens t) -> mem c (tcols t) = true ->
  dict_contains token c = true /\ dict_get_default token c dflt = payload_value token c.
Proof.
  intros Hin Hc. unfold listed_tokens in Hin.
  apply in_map_iff in Hin as (r & <- & _).
  unfold dict_contains, dict_get_default, payload_value, dict_get_default.
  now rewrite row_to_dict_get, Hc.
Qed.

(** The default of [token.get("chain", "")] never applies to a listed
    market, since a record of [list_tokens] has every column as a key: a
    market whose [chain] is NULL gets NULL as the chain of every bar written
    for it, so the identity of these bars is incomplete. *)
Theorem null_chain_is_written_as_null (markets : table) (token bar : dict) :
  subset_of ["exchange"; "symbol"; "chain"] (tcols markets) = true ->
  In token (listed_tokens markets) ->
  payload_value token "chain" = VNull ->
  exists payload,
    bar_payload token bar = inr payload
    /\ payload_value payload "chain" = VNull
    /\ complete_identity bar_identity payload = false.
Proof.
  intros Hcols Hin Hnull.
  assert (Hmem : forall c, In c ["exchange"; "symbol"; "chain"] ->
                           mem c (tcols markets) = true).
  { intros c Hc. apply mem_In. rewrite subset_of_In in Hcols. now apply Hcols. }
  destruct (listed_token_get markets token "exchange" VNull Hin
              (Hmem "exchange" ltac:(simpl; tauto))) as [He _].
  destruct (listed_token_get markets token "symbol" VNull Hin
              (Hmem "symbol" ltac:(simpl; tauto))) as [Hs _].
  destruct (listed_token_get markets token "chain" (VText "") Hin
              (Hmem "chain" ltac:(simpl; tauto))) as [_ Hc].
  exists (tagged token bar). split; [now apply bar_payload_tagged|].
  assert (Hchain : payload_value (tagged token bar) "chain" = VNull).
  { unfold tagged. rewrite !payload_value_dict_set. simpl. now rewrite Hc. }
  split; [exact Hchain|].
  unfold complete_identity. cbn [forallb bar_identity]. rewrite Hchain. simpl.
  now rewrite !andb_false_r.
Qed.

Lemma null_chain_witness :
  exists payload,
    dex_api.bar_payload
      (row_to_dict (tcols sample_markets_no_chain)
         (row_of_dict [("id", VText "t1"); ("symbol", VText "AAA");
                       ("exchange", VText "pancake"); ("token_address", VText "0xa");
                       ("enabled", VInt 1)]))
      (raw_bar 60 3)
    = inr payload
    /\ payload_value payload "chain" = VNull
    /\ complete_identity bar_identity payload = false.
Proof.
  apply (null_chain_is_written_as_null sample_markets_no_chain).
  - reflexivity.
  - vm_compute. left. reflexivity.
  - vm_compute. reflexivity.
Defined.

(** What [PancakeAdapter] returns is a list of at most one bar, stamped with
    [close_ts] 0: reading it does not fail. *)
Lemma pancake_bar_close_ts (price_of : value -> exn + Q)
    (chain token_address pool_address : value) (since_ts : option Z)
    (bars : iterable) (bar : dict) :
  adapter_fetch_1m_bar (PancakeAdapter price_of) chain token_address pool_address since_ts
  = inr bars ->
  In bar (yielded bars) ->
  payload_value bar "close_ts" = VInt 0 /\ (length (yielded bars) <= 1)%nat
  /\ raised bars = None.
Proof.
  cbn [adapter_fetch_1m_bar PancakeAdapter].
  destruct (price_of token_address) as [e|price]; [discriminate|].
  destruct (Qeq_bool price 0); intros [= <-]; [intros []|].
  intros [<-|[]]. repeat split. simpl. lia.
Qed.

(** [PancakeAdapter] returns at most one bar per call and stamps it with
    [close_ts] 0 whatever the price and the time: the payloads written for
    one market in any two cycles have the same identity, so every cycle after
    the first overwrites the row of the market instead of adding a candle.
    Its result is a list, so reading it never fails. *)
Theorem pancake_bars_share_identity (price_of price_of' : value -> exn + Q)
    (chain token_address pool_address : value) (since_ts since_ts' : option Z)
    (token : dict) (bars bars' : iterable) (bar bar' : dict) :
  adapter_fetch_1m_bar (PancakeAdapter price_of) chain token_address pool_address since_ts
  = inr bars ->
  adapter_fetch_1m_bar (PancakeAdapter price_of') chain token_address pool_address since_ts'
  = inr bars' ->
  In bar (yielded bars) -> In bar' (yielded bars') ->
  complete_identity bar_identity (tagged token bar) = true ->
  (length (yielded bars) <= 1)%nat /\ (length (yielded bars') <= 1)%nat
  /\ payload_value (tagged token bar) "close_ts" = VInt 0
  /\ same_identity (payload_identity bar_identity (tagged token bar))
                   (payload_identity bar_identity (tagged token bar')) = true
  /\ raised bars = None /\ raised bars' = None.
Proof.
  intros Hf Hf' Hb Hb' Hc.
  destruct (pancake_bar_close_ts _ _ _ _ _ _ _ Hf Hb) as (Hts & Hlen & Hend).
  destruct (pancake_bar_close_ts _ _ _ _ _ _ _ Hf' Hb') as (Hts' & Hlen' & Hend').
  repeat split; try assumption.
  - unfold tagged. rewrite !payload_value_dict_set. simpl. exact Hts.
  - rewrite (tagged_identity token bar'), Hts', <- Hts, <- tagged_identity.
    apply same_identity_refl. unfold complete_identity in Hc.
    unfold complete, payload_identity. now rewrite forallb_map.
Qed.

Lemma pancake_bars_share_identity_witness :
  (length [pancake_bar 3] <= 1)%nat /\ (length [pancake_bar 4] <= 1)%nat
  /\ payload_value (tagged sample_token (pancake_bar 3)) "close_ts" = VInt 0
  /\ same_identity (payload_identity bar_identity (tagged sample_token (pancake_bar 3)))
                   (payload_identity bar_identity (tagged sample_token (pancake_bar 4)))
     = true
  /\ raised (finished [pancake_bar 3]) = None /\ raised (finished [pancake_bar 4]) = None.
Proof.
  apply (pancake_bars_share_identity (fun _ => inr 3%Q) (fun _ => inr 4%Q)
           (VText "bsc") (VText "0xa") VNull None (Some 60) sample_token
           (finished [pancake_bar 3]) (finished [pancake_bar 4])).
  - reflexivity.
  - reflexivity.
  - simpl. now left.
  - simpl. now left.
  - vm_compute. reflexivity.
Defined.




(** The cycle of the witness: one bar of the first market and one of the
    third are in the table when the cycle ends in the error. *)
Example store_error_after_two_bars :
  let cycle := dex_api.sync_registered_tokens sample_adapters_narrow None in
  outcome cycle narrow_store = inl (OperationalError "table has no column of that name")
  /\ map (fun r => (row_get r "symbol", row_get r "close_ts"))
         (rows_of (exec cycle narrow_store) "bars_1m")
     = [(VText "AAA", VInt 60); (VText "CCC", VInt 60)].
Proof. vm_compute. repeat split. Qed.

End MoreIngestion.
